(** * xpec-gen: the sanitizer, the LLM client and the pipeline of [mod.ts]

    A shallow embedding of [src/mod.ts].  JavaScript strings are sequences
    of UTF-16 code units, modelled as [list N]; the two regular-expression
    replacements and [trim] of [cleanCode] are written out as list
    functions; the retry loop of [queryOpenRouter] and the stages of [main]
    run in a small state-and-exception monad over a world that holds the
    scripted network, the file system and the log of observable events. *)

From Equations Require Import Equations.
From Stdlib Require Import String Ascii List Arith NArith ZArith Bool Lia SpecFloat.
Import ListNotations.

Set Implicit Arguments.

(** ** JavaScript strings *)

Definition jsstring := list N.

(** An ASCII literal as a JavaScript string. *)
Definition lit (s : string) : jsstring :=
  map N_of_ascii (list_ascii_of_string s).

Module Sanitizer.

Local Open Scope N_scope.

Definition backtick : N := 96.
Definition newline : N := 10.

Definition is_backtick (c : N) : bool := N.eqb c backtick.

(** [\w] without the [i] and [u] flags: [A-Za-z0-9_]. *)
Definition is_word (c : N) : bool :=
  ((48 <=? c) && (c <=? 57)) || ((65 <=? c) && (c <=? 90))
  || ((97 <=? c) && (c <=? 122)) || (c =? 95).

(** What [String.prototype.trim] removes: ECMAScript WhiteSpace and
    LineTerminator code units. *)
Definition is_space (c : N) : bool :=
  ((9 <=? c) && (c <=? 13)) || (c =? 32) || (c =? 160) || (c =? 5760)
  || ((8192 <=? c) && (c <=? 8202)) || (c =? 8232) || (c =? 8233)
  || (c =? 8239) || (c =? 8287) || (c =? 12288) || (c =? 65279).

Local Close Scope N_scope.

Definition fence : jsstring := [backtick; backtick; backtick].

(** Does the text start with three backticks? *)
Definition starts_fence (s : jsstring) : bool :=
  match s with
  | c1 :: c2 :: c3 :: _ => is_backtick c1 && is_backtick c2 && is_backtick c3
  | _ => false
  end.

(** The greedy [[\w]*]: the text after the longest run of word characters. *)
Fixpoint skip_word (s : jsstring) : jsstring :=
  match s with
  | c :: s' => if is_word c then skip_word s' else s
  | [] => []
  end.

(** One match attempt of [/```[\w]*\n/] at the start of [s]; the result is
    the text after the match.  Backtracking into [[\w]*] cannot help: a
    shorter run is followed by a word character, never by the newline. *)
Definition match_open (s : jsstring) : option jsstring :=
  match s with
  | c1 :: c2 :: c3 :: s' =>
      if is_backtick c1 && is_backtick c2 && is_backtick c3 then
        match skip_word s' with
        | c :: rest => if N.eqb c newline then Some rest else None
        | [] => None
        end
      else None
  | _ => None
  end.

Lemma skip_word_length (s : jsstring) : length (skip_word s) <= length s.
Proof.
  induction s as [|c s IH]; simpl; [lia|].
  destruct (is_word c); simpl; lia.
Qed.

Lemma match_open_shorter (s rest : jsstring) :
  match_open s = Some rest -> length rest < length s.
Proof.
  destruct s as [|c1 [|c2 [|c3 s']]]; simpl; try discriminate.
  destruct (is_backtick c1 && is_backtick c2 && is_backtick c3); [|discriminate].
  pose proof (skip_word_length s') as Hl.
  destruct (skip_word s') as [|c r]; [discriminate|].
  destruct (N.eqb c newline); [|discriminate].
  intros [= <-]. simpl in Hl. lia.
Qed.

(** A value together with the equation that says where it came from. *)
Definition inspect {A : Type} (x : A) : {y : A | x = y} := exist _ x eq_refl.

(** [str.replace(/```[\w]*\n/g, "")]: scan from the left; where the pattern
    matches, drop the match and go on after it, otherwise keep the code
    unit and go on with the next one. *)
Equations? replace_open (s : jsstring) : jsstring by wf (length s) lt :=
  replace_open [] := [];
  replace_open (c :: s') with inspect (match_open (c :: s')) := {
    | exist _ (Some rest) _ := replace_open rest;
    | exist _ None _ := c :: replace_open s' }.
Proof.
  apply (match_open_shorter (c :: s')). assumption.
Qed.

(** [.replace(/```/g, "")]. *)
Fixpoint replace_fence (s : jsstring) : jsstring :=
  match s with
  | [] => []
  | c1 :: s1 =>
      match s1 with
      | c2 :: c3 :: rest =>
          if is_backtick c1 && is_backtick c2 && is_backtick c3
          then replace_fence rest
          else c1 :: replace_fence s1
      | _ => c1 :: replace_fence s1
      end
  end.

Fixpoint trimStart (s : jsstring) : jsstring :=
  match s with
  | c :: s' => if is_space c then trimStart s' else s
  | [] => []
  end.

Definition trimEnd (s : jsstring) : jsstring := rev (trimStart (rev s)).

Definition trim (s : jsstring) : jsstring := trimEnd (trimStart s).

(** [cleanCode] of mod.ts. *)
Definition cleanCode (str : jsstring) : jsstring :=
  trim (replace_fence (replace_open str)).

(** The sanitizer as the specification words its second half: an opening
    marker is taken off only where it leads the text, closing markers
    everywhere.  Compared with [cleanCode] below. *)
Definition sanitize_leading_only (str : jsstring) : jsstring :=
  trim (replace_fence
          (match match_open str with Some rest => rest | None => str end)).

(** The text contains three backticks in a row somewhere. *)
Fixpoint has_fence (s : jsstring) : bool :=
  match s with
  | [] => false
  | _ :: s' => starts_fence s || has_fence s'
  end.

Definition leading_space (s : jsstring) : bool :=
  match s with
  | c :: _ => is_space c
  | [] => false
  end.

Definition trailing_space (s : jsstring) : bool := leading_space (rev s).

Definition leading_backtick (s : jsstring) : bool :=
  match s with
  | c :: _ => is_backtick c
  | [] => false
  end.

(** No code unit of the text is a backtick. *)
Definition no_backtick (s : jsstring) : bool :=
  forallb (fun c => negb (is_backtick c)) s.

End Sanitizer.


(** ** JavaScript values as [JSON.parse] builds them *)

Module Js.

#[local] Set Warnings "-register-all".

Inductive json : Type :=
| JNull
| JBool (b : bool)
| JNum (x : spec_float)
| JStr (s : jsstring)
| JArr (items : list json)
| JObj (fields : list (jsstring * json)).

(** A value a JavaScript expression can have here: [undefined] or a parsed
    value. *)
Inductive value : Type :=
| Undefined
| Val (j : json).

Inductive error : Type :=
| ConfigError            (* new Error("API Key não definida.") *)
| ApiError (status : Z)  (* new Error(`API Error: ${response.status}`) *)
| NetworkFailure         (* fetch rejects *)
| JsonSyntaxError        (* response.json() rejects *)
| TypeError              (* property of undefined or null, call of a non-function *)
| IOError (path : jsstring). (* Deno.readTextFile / Deno.writeTextFile rejects *)

(** The outcome of an expression or statement that may throw. *)
Inductive result (A : Type) : Type :=
| Return (a : A)
| Throw (e : error).
Arguments Throw {A} e.

Fixpoint jsstring_eqb (a b : jsstring) : bool :=
  match a, b with
  | [], [] => true
  | x :: a', y :: b' => N.eqb x y && jsstring_eqb a' b'
  | _, _ => false
  end.

(** The own property [k] of an object, [undefined] when there is none. *)
Fixpoint lookup (k : jsstring) (fields : list (jsstring * json)) : value :=
  match fields with
  | [] => Undefined
  | (k', v) :: rest => if jsstring_eqb k k' then Val v else lookup k rest
  end.

(** [o.k] for the property names the client reads ([choices], [message],
    [content]): no prototype defines them, so only objects can have them;
    reading from [undefined] or [null] throws. *)
Definition get (o : value) (k : jsstring) : result value :=
  match o with
  | Undefined | Val JNull => Throw TypeError
  | Val (JObj fields) => Return (lookup k fields)
  | Val _ => Return Undefined
  end.

(** [o[0]]. *)
Definition get0 (o : value) : result value :=
  match o with
  | Undefined | Val JNull => Throw TypeError
  | Val (JArr items) =>
      Return (match items with x :: _ => Val x | [] => Undefined end)
  | Val (JStr s) =>
      Return (match s with c :: _ => Val (JStr [c]) | [] => Undefined end)
  | Val (JObj fields) => Return (lookup (lit "0") fields)
  | Val _ => Return Undefined
  end.

(** [o?.k]: short-circuits to [undefined] on [undefined] and [null]. *)
Definition opt_get (o : value) (k : jsstring) : value :=
  match get o k with
  | Return v => v
  | Throw _ => Undefined
  end.

(** ToBoolean. *)
Definition truthy (v : value) : bool :=
  match v with
  | Undefined | Val JNull => false
  | Val (JBool b) => b
  | Val (JNum (S754_zero _)) | Val (JNum S754_nan) => false
  | Val (JNum _) => true
  | Val (JStr s) => match s with [] => false | _ => true end
  | Val (JArr _) | Val (JObj _) => true
  end.

(** [a || b]. *)
Definition or_else (a b : value) : value := if truthy a then a else b.

Definition empty_string : value := Val (JStr []).

(** [data.choices[0]?.message?.content || ""]. *)
Definition first_choice_content (data : json) : result value :=
  match get (Val data) (lit "choices") with
  | Throw e => Throw e
  | Return choices =>
      match get0 choices with
      | Throw e => Throw e
      | Return first =>
          Return (or_else (opt_get (opt_get first (lit "message")) (lit "content"))
                          empty_string)
      end
  end.

(** The text at [choices[0].message.content] of a well-formed answer. *)
Definition message_content (data : json) : option jsstring :=
  match data with
  | JObj fields =>
      match lookup (lit "choices") fields with
      | Val (JArr (JObj first :: _)) =>
          match lookup (lit "message") first with
          | Val (JObj msg) =>
              match lookup (lit "content") msg with
              | Val (JStr c) => Some c
              | _ => None
              end
          | _ => None
          end
      | _ => None
      end
  | _ => None
  end.

End Js.


(** ** The world the program runs in *)

Module World.
Import Js.

(** A number written as a decimal literal: [digits] times ten to the minus
    [scale] ([0.7] is [7] at scale [1]). *)
Record decimal : Type := { digits : Z; scale : nat }.

Record message : Type := { role : jsstring; content : jsstring }.

(** The POST that [fetch] sends: the bearer credential of the header and the
    three fields of the JSON body. *)
Record request : Type := {
  bearer : jsstring;
  req_model : jsstring;
  req_messages : list message;
  req_temperature : decimal }.

(** What one [fetch] comes back with: a rejection, or a response with its
    status and its body as [response.json()] would parse it ([None] when
    the body is not JSON). *)
Inductive outcome : Type :=
| NetworkError
| Response (status : Z) (body : option json).

(** The lines [console.log] prints, without their colours. *)
Inductive notice : Type :=
| ArchitectStarts
| AuditorStarts
| ReviewerStarts
| SpecLoaded
| ReviewLoaded
| Banner
| Usage
| PipelineDone (outPath : jsstring).

Inductive event : Type :=
| EvFetch (req : request)
| EvSleep (ms : Z)
| EvLog (n : notice)
| EvConsoleError (e : error)
| EvWrite (path : jsstring) (text : jsstring).

Record world : Type := {
  api_key : option jsstring;          (* the module variable API_KEY *)
  model : jsstring;                   (* MODEL *)
  typed_key : option jsstring;        (* what prompt() would return *)
  server : nat -> request -> outcome; (* the answer to the n-th request *)
  fetches : nat;                      (* requests sent so far *)
  files : jsstring -> option jsstring;
  writable : jsstring -> bool;
  events : list event }.              (* oldest first *)

Definition emit (e : event) (w : world) : world :=
  {| api_key := api_key w; model := model w; typed_key := typed_key w;
     server := server w; fetches := fetches w; files := files w;
     writable := writable w; events := events w ++ [e] |}.

Definition sent (w : world) : world :=
  {| api_key := api_key w; model := model w; typed_key := typed_key w;
     server := server w; fetches := S (fetches w); files := files w;
     writable := writable w; events := events w |}.

Definition set_api_key (k : option jsstring) (w : world) : world :=
  {| api_key := k; model := model w; typed_key := typed_key w;
     server := server w; fetches := fetches w; files := files w;
     writable := writable w; events := events w |}.

(** The world [n] requests and the events [evs] later. *)
Definition advance (evs : list event) (n : nat) (w : world) : world :=
  {| api_key := api_key w; model := model w; typed_key := typed_key w;
     server := server w; fetches := n + fetches w; files := files w;
     writable := writable w; events := events w ++ evs |}.

(** The durations of the sleeps in a log, in order. *)
Definition sleeps (evs : list event) : list Z :=
  flat_map (fun e => match e with EvSleep ms => [ms] | _ => [] end) evs.

(** The number of requests in a log. *)
Definition requests (evs : list event) : nat :=
  length (filter (fun e => match e with EvFetch _ => true | _ => false end) evs).

(** Computations that change the world and may throw. *)
Definition M (A : Type) : Type := world -> world * result A.

Definition ret {A} (a : A) : M A := fun w => (w, Return a).

Definition throw {A} (e : error) : M A := fun w => (w, Throw e).

Definition bind {A B} (m : M A) (k : A -> M B) : M B :=
  fun w =>
    match m w with
    | (w', Return a) => k a w'
    | (w', Throw e) => (w', Throw e)
    end.

(** [try { m } catch (error) { handler }]. *)
Definition try_catch {A} (m : M A) (handler : error -> M A) : M A :=
  fun w =>
    match m w with
    | (w', Return a) => (w', Return a)
    | (w', Throw e) => handler e w'
    end.

Definition lift {A} (r : result A) : M A := fun w => (w, r).

(** Every event a computation adds to the log satisfies [P]. *)
Definition emits_only {A : Type} (P : event -> Prop) (m : M A) : Prop :=
  forall w w' r, m w = (w', r) ->
    exists evs, events w' = events w ++ evs /\ Forall P evs.

(** A property that holds of every request and every sleep: all the client
    adds to the log. *)
Definition network_event (P : event -> Prop) : Prop :=
  (forall req, P (EvFetch req)) /\ (forall ms, P (EvSleep ms)).

Declare Scope js_scope.
Delimit Scope js_scope with js.
Notation "x <- m ;; k" := (bind m (fun x => k))
  (at level 61, m at next level, right associativity) : js_scope.
Notation "m ;;; k" := (bind m (fun _ => k))
  (at level 61, right associativity) : js_scope.

Definition log (n : notice) : M unit := fun w => (emit (EvLog n) w, Return tt).

(** [await new Promise(r => setTimeout(r, ms))]. *)
Definition sleep (ms : Z) : M unit := fun w => (emit (EvSleep ms) w, Return tt).

Definition fetch (req : request) : M (Z * option json) :=
  fun w =>
    let w' := emit (EvFetch req) (sent w) in
    match server w (fetches w) req with
    | NetworkError => (w', Throw NetworkFailure)
    | Response status body => (w', Return (status, body))
    end.

Definition readTextFile (path : jsstring) : M jsstring :=
  fun w =>
    match files w path with
    | Some text => (w, Return text)
    | None => (w, Throw (IOError path))
    end.

Definition writeTextFile (path text : jsstring) : M unit :=
  fun w =>
    if writable w path then (emit (EvWrite path text) w, Return tt)
    else (w, Throw (IOError path)).

(** Truthiness of a string that may be missing. *)
Definition present (s : option jsstring) : bool :=
  match s with
  | Some (_ :: _) => true
  | _ => false
  end.

End World.

(** ** The LLM client *)

Module Client.
Import Js World.
Local Open Scope js_scope.

(** [response.ok]. *)
Definition ok (status : Z) : bool := ((200 <=? status) && (status <=? 299))%Z.

(** The body of the [for] loop: [Some v] when the function returns [v],
    [None] when the loop goes on with the next attempt. *)
Definition attempt_body (req : request) (retries attempt : nat)
  : M (option value) :=
  try_catch
    (response <- fetch req ;;
     let '(status, body) := response in
     if (status =? 429)%Z then
       sleep (2000 * Z.of_nat attempt) ;;; ret None
     else if negb (ok status) then throw (ApiError status)
     else
       data <- lift (match body with
                     | Some d => Return d
                     | None => Throw JsonSyntaxError
                     end) ;;
       v <- lift (first_choice_content data) ;;
       ret (Some v))
    (fun error =>
       if Nat.eqb attempt retries then throw error
       else sleep 1000 ;;; ret None).

(** [for (let attempt = 1; attempt <= retries; attempt++) { ... } return ""],
    with [remaining] the number of iterations still to run. *)
Fixpoint attempts (req : request) (retries remaining attempt : nat)
  : M value :=
  match remaining with
  | O => ret empty_string
  | S remaining' =>
      r <- attempt_body req retries attempt ;;
      match r with
      | Some v => ret v
      | None => attempts req retries remaining' (S attempt)
      end
  end.

(** The request the client sends: the credential in the header, [MODEL],
    the messages and the temperature in the body. *)
Definition request_for (w : world) (key : jsstring) (messages : list message)
  (temperature : decimal) : request :=
  {| bearer := key; req_model := model w;
     req_messages := messages; req_temperature := temperature |}.

Definition queryOpenRouter (messages : list message) (temperature : decimal)
  (retries : nat) : M value :=
  fun w =>
    match api_key w with
    | Some (c :: key) =>
        attempts (request_for w (c :: key) messages temperature)
                 retries retries 1 w
    | _ => (w, Throw ConfigError)
    end.

(** The error an attempt raises on a given answer, if it raises one: a
    rejected [fetch], a status that is neither 429 nor 2xx, a body that is
    not JSON, or a body on which reading the content throws. *)
Definition failure (o : outcome) : option error :=
  match o with
  | NetworkError => Some NetworkFailure
  | Response status body =>
      if (status =? 429)%Z then None
      else if negb (ok status) then Some (ApiError status)
      else match body with
           | None => Some JsonSyntaxError
           | Some data =>
               match first_choice_content data with
               | Throw e => Some e
               | Return _ => None
               end
           end
  end.

(** The events of [count] rate-limited attempts, the first numbered
    [attempt]: a request, then a sleep of 2000 ms times the number. *)
Definition backoff (req : request) (attempt count : nat) : list event :=
  flat_map (fun i => [EvFetch req; EvSleep (2000 * Z.of_nat i)])
           (seq attempt count).

(** The events of [count] failed attempts that are retried: a request, then
    a sleep of 1000 ms. *)
Definition retried (req : request) (count : nat) : list event :=
  flat_map (fun _ => [EvFetch req; EvSleep 1000]) (seq 1 count).

(** The default of the [retries] parameter. *)
Definition default_retries : nat := 5.

End Client.

(** ** The agents and the pipeline *)

Module Pipeline.
Import Sanitizer Js World Client.
Local Open Scope js_scope.

Definition nl : jsstring := [newline].
Definition quote : jsstring := [34%N].

Definition user_message (text : jsstring) : list message :=
  [{| role := lit "user"; content := text |}].

Definition architect_prompt (prompt spec : jsstring) : jsstring :=
  nl ++ lit "  CONTEXT / SPECIFICATION:" ++ nl
  ++ lit "  " ++ spec ++ nl
  ++ lit "  TASK: Implement the user request: " ++ quote ++ prompt ++ quote
  ++ lit "." ++ nl
  ++ lit "  OUTPUT: Return ONLY the code/text content." ++ nl
  ++ lit "  ".

Definition auditor_prompt (code spec : jsstring) : jsstring :=
  nl ++ lit "  SPECIFICATION:" ++ nl
  ++ lit "  " ++ spec ++ nl
  ++ lit "  TASK: Fix any violations of the SPEC in the provided CODE." ++ nl
  ++ lit "  OUTPUT: Return the FIXED code ONLY." ++ nl
  ++ lit "  CODE:" ++ nl
  ++ lit "  " ++ code ++ nl
  ++ lit "  ".

Definition reviewer_prompt (code reviewRules : jsstring) : jsstring :=
  nl ++ lit "  CODE REVIEW RULES (STYLE GUIDE):" ++ nl
  ++ lit "  " ++ reviewRules ++ nl
  ++ nl
  ++ lit "  ROLE: You are a Senior Code Reviewer." ++ nl
  ++ lit "  TASK: Refactor the provided CODE to strictly follow the REVIEW RULES." ++ nl
  ++ lit "  " ++ nl
  ++ lit "  ACTIONS:" ++ nl
  ++ lit "  - Fix naming conventions." ++ nl
  ++ lit "  - Optimize imports." ++ nl
  ++ lit "  - Improve comments/docs if requested." ++ nl
  ++ lit "  - Do NOT change the business logic, only the style/structure." ++ nl
  ++ nl
  ++ lit "  OUTPUT: Return the REFACTORED code ONLY." ++ nl
  ++ lit "  CODE:" ++ nl
  ++ lit "  " ++ code ++ nl
  ++ lit "  ".

Definition creative : decimal := {| digits := 7; scale := 1 |}.
Definition strict : decimal := {| digits := 2; scale := 1 |}.

Definition architectAgent (prompt spec : jsstring) : M value :=
  log ArchitectStarts ;;;
  queryOpenRouter (user_message (architect_prompt prompt spec)) creative
                  default_retries.

Definition auditorAgent (code spec : jsstring) : M value :=
  log AuditorStarts ;;;
  queryOpenRouter (user_message (auditor_prompt code spec)) strict
                  default_retries.

Definition reviewerAgent (code reviewRules : jsstring) : M value :=
  log ReviewerStarts ;;;
  queryOpenRouter (user_message (reviewer_prompt code reviewRules)) strict
                  default_retries.

(** The call [cleanCode(code)] on whatever the agent returned: only a string
    has a [replace] method. *)
Definition callCleanCode (v : value) : M jsstring :=
  match v with
  | Val (JStr str) => ret (cleanCode str)
  | _ => throw TypeError
  end.

(** The parsed command line: the joined positional words and the three
    string flags. *)
Record args : Type := {
  userPrompt : jsstring;
  specPath : option jsstring;
  reviewPath : option jsstring;
  out : option jsstring }.

(** [args.out || "output.ts"]. *)
Definition outPath (a : args) : jsstring :=
  match out a with
  | Some (c :: p) => c :: p
  | _ => lit "output.ts"
  end.

(** Lines 123-127: the review rules, the empty string without a path. *)
Definition loadReview (reviewPath : option jsstring) : M jsstring :=
  match reviewPath with
  | Some (c :: p) =>
      text <- readTextFile (c :: p) ;;
      log ReviewLoaded ;;;
      ret text
  | _ => ret []
  end.

(** One stage: [code = await agent(...); code = cleanCode(code);]. *)
Definition stage (agent : M value) : M jsstring :=
  code <- agent ;;
  callCleanCode code.

(** Lines 129-141: the stages, each agent's answer cleaned before it goes
    on; the result is the value of [code] that line 144 writes. *)
Definition stages (userPrompt specContent reviewContent : jsstring)
  : M jsstring :=
  code <- stage (architectAgent userPrompt specContent) ;;
  code <- stage (auditorAgent code specContent) ;;
  match reviewContent with
  | _ :: _ => stage (reviewerAgent code reviewContent)
  | [] => ret code
  end.

(** The body of the [try] block of [main]. *)
Definition try_block (a : args) (specPath : jsstring) : M unit :=
  specContent <- readTextFile specPath ;;
  log SpecLoaded ;;;
  reviewContent <- loadReview (reviewPath a) ;;
  code <- stages (userPrompt a) specContent reviewContent ;;
  writeTextFile (outPath a) code ;;;
  log (PipelineDone (outPath a)).

(** How the process ends: [Deno.exit(code)], or [main] running to its end. *)
Inductive termination : Type :=
| Exit (code : Z)
| Completed.

(** The exit status the operating system sees; a program that runs to its
    end without an uncaught error leaves status 0. *)
Definition exit_status (t : termination) : Z :=
  match t with
  | Exit code => code
  | Completed => 0
  end.

Definition main (a : args) (w : world) : world * termination :=
  let w1 :=
    if present (api_key w) then w
    else set_api_key (Some (match typed_key w with Some k => k | None => [] end)) w in
  if negb (present (api_key w1)) then (w1, Exit 1)
  else
    match userPrompt a, specPath a with
    | _ :: _, Some (c :: p) =>
        match try_block a (c :: p) w1 with
        | (w2, Return _) => (w2, Completed)
        | (w2, Throw err) => (emit (EvConsoleError err) w2, Completed)
        end
    | _, _ => (emit (EvLog Usage) (emit (EvLog Banner) w1), Exit 0)
    end.

End Pipeline.

(** ** Scripted worlds for the examples *)

Module Examples.
Import Sanitizer Js World Client Pipeline.

(** A well-formed answer of the service with the given text. *)
Definition answer (text : jsstring) : json :=
  JObj [(lit "choices",
         JArr [JObj [(lit "message", JObj [(lit "content", JStr text)])]])].

(** A world with a credential, an empty log, the given server and files. *)
Definition scripted (srv : nat -> request -> outcome)
  (fs : jsstring -> option jsstring) : world :=
  {| api_key := Some (lit "sk-test");
     model := lit "google/gemini-2.0-flash-exp:free";
     typed_key := None;
     server := srv; fetches := 0; files := fs;
     writable := fun _ => true; events := [] |}.

Definition no_files : jsstring -> option jsstring := fun _ => None.

Definition hello : list message := user_message (lit "hello").

(** Two rate-limited answers, then a fenced program. *)
Definition busy_twice : nat -> request -> outcome :=
  fun n _ =>
    if n <? 2 then Response 429 None
    else Response 200 (Some (answer (lit "done"))).

(** A server that always answers 500. *)
Definition broken : nat -> request -> outcome :=
  fun _ _ => Response 500 None.

(** A server that is always rate-limited. *)
Definition always_busy : nat -> request -> outcome :=
  fun _ _ => Response 429 None.

(** A server that answers 200 with the body [{}]. *)
Definition no_choices : nat -> request -> outcome :=
  fun _ _ => Response 200 (Some (JObj [])).

(** A server that wraps the number of the request in a fenced block. *)
Definition fenced : nat -> request -> outcome :=
  fun n _ =>
    Response 200
      (Some (answer (lit "```ts" ++ [newline] ++ lit "v"
                     ++ [N.of_nat (48 + n)] ++ [newline] ++ lit "```"))).

(** A file system with a specification and review rules. *)
Definition project : jsstring -> option jsstring :=
  fun path =>
    if jsstring_eqb path (lit "spec.md") then Some (lit "must be named greet")
    else if jsstring_eqb path (lit "rules.md") then Some (lit "use arrow functions")
    else None.

Definition greet : args :=
  {| userPrompt := lit "write a hello world function";
     specPath := Some (lit "spec.md");
     reviewPath := None;
     out := None |}.

Definition greet_reviewed : args :=
  {| userPrompt := lit "write a hello world function";
     specPath := Some (lit "spec.md");
     reviewPath := Some (lit "rules.md");
     out := Some (lit "greet.ts") |}.

End Examples.


(** ** Measures on texts and logs *)

Module Observations.
Import Sanitizer Js World Client Pipeline.

(** [a] is [b] with some code units deleted. *)
Inductive subseq : jsstring -> jsstring -> Prop :=
| subseq_nil : subseq [] []
| subseq_keep (c : N) (a b : jsstring) : subseq a b -> subseq (c :: a) (c :: b)
| subseq_drop (c : N) (a b : jsstring) : subseq a b -> subseq a (c :: b).

(** The sum of a measure over a log. *)
Definition weight (f : event -> nat) (evs : list event) : nat :=
  list_sum (map f evs).

Definition request_count (e : event) : nat :=
  match e with EvFetch _ => 1 | _ => 0 end.

Definition write_count (e : event) : nat :=
  match e with EvWrite _ _ => 1 | _ => 0 end.

(** The milliseconds an event sleeps. *)
Definition sleep_ms (e : event) : nat :=
  match e with EvSleep ms => Z.to_nat ms | _ => 0 end.

(** A computation adds events of total weight at most [n]. *)
Definition emits_within {A : Type} (f : event -> nat) (n : nat) (m : M A) : Prop :=
  forall w w' r, m w = (w', r) ->
    exists evs, events w' = events w ++ evs /\ weight f evs <= n.

(** The longest the loop can sleep from attempt [attempt] on with
    [remaining] attempts left: a back-off after each of them. *)
Fixpoint budget (attempt remaining : nat) : nat :=
  match remaining with
  | O => 0
  | S n => 2000 * attempt + budget (S attempt) n
  end.

(** An answer after which the loop goes on, when the attempt is not the
    last: rate limiting or an error. *)
Definition rate_limited (o : outcome) : bool :=
  match o with
  | Response status _ => (status =? 429)%Z
  | NetworkError => false
  end.

Definition retryable (o : outcome) : bool :=
  rate_limited o || match failure o with Some _ => true | None => false end.

(** What an attempt that is retried adds to the log. *)
Definition retry_events (req : request) (attempt : nat) (o : outcome)
  : list event :=
  if rate_limited o then [EvFetch req; EvSleep (2000 * Z.of_nat attempt)]
  else [EvFetch req; EvSleep 1000].

(** The log of [count] retried attempts, the first numbered [attempt] and
    answered by the request numbered [first]. *)
Fixpoint retry_trace (srv : nat -> request -> outcome) (req : request)
  (first attempt count : nat) : list event :=
  match count with
  | O => []
  | S n => retry_events req attempt (srv first req)
           ++ retry_trace srv req (S first) (S attempt) n
  end.

(** With the credential and the model fixed, a computation keeps both and
    adds only events that satisfy [P]. *)
Definition steady {A : Type} (key : option jsstring) (mdl : jsstring)
  (P : event -> Prop) (m : M A) : Prop :=
  forall w w' r, api_key w = key -> model w = mdl -> m w = (w', r) ->
    api_key w' = key /\ model w' = mdl
    /\ exists evs, events w' = events w ++ evs /\ Forall P evs.

(** The content field of an answer of the expected shape, an object whose
    [choices] is an array with an object first, whose [message] is an
    object: the value of its [content], [undefined] when it has none. *)
Definition content_field (data : json) : option value :=
  match data with
  | JObj fields =>
      match lookup (lit "choices") fields with
      | Val (JArr (JObj first :: _)) =>
          match lookup (lit "message") first with
          | Val (JObj msg) => Some (lookup (lit "content") msg)
          | _ => None
          end
      | _ => None
      end
  | _ => None
  end.

(** An event that is neither a write nor the closing line of a run. *)
Definition quiet_event (e : event) : Prop :=
  match e with
  | EvWrite _ _ => False
  | EvLog (PipelineDone _) => False
  | _ => True
  end.

(** A request as the agents build it: the credential [key], not empty, the
    model [mdl], one message of role [user], temperature 0.7 or 0.2. *)
Definition well_formed (key mdl : jsstring) (e : event) : Prop :=
  match e with
  | EvFetch r =>
      bearer r = key /\ key <> [] /\ req_model r = mdl
      /\ (exists text, req_messages r = user_message text)
      /\ (req_temperature r = creative \/ req_temperature r = strict)
  | _ => True
  end.

End Observations.


(** ** More scripted servers *)

Module Scenarios.
Import Sanitizer Js World Client Pipeline Examples.

(** An error, a rate limit, then an answer whose content is a number. *)
Definition flaky : nat -> request -> outcome :=
  fun n _ =>
    match n with
    | 0 => NetworkError
    | 1 => Response 429 None
    | _ => Response 201
             (Some (JObj [(lit "choices",
                           JArr [JObj [(lit "message",
                                        JObj [(lit "content",
                                               JNum (S754_finite false 5 0))])]])]))
    end.

(** Errors, then a rate limit for good. *)
Definition worsening : nat -> request -> outcome :=
  fun n _ => if n <? 2 then Response 503 None else Response 429 None.

(** A well-formed answer whose content is the number 5. *)
Definition numeric : nat -> request -> outcome :=
  fun _ _ =>
    Response 200
      (Some (JObj [(lit "choices",
                    JArr [JObj [(lit "message",
                                 JObj [(lit "content",
                                        JNum (S754_finite false 5 0))])]])])).

End Scenarios.


(** * Properties of the sanitizer *)

Section SanitizerFacts.
Import Sanitizer.

(** The defining equation of [replace_open] in the shape of the source. *)
Lemma replace_open_cons (c : N) (s : jsstring) :
  replace_open (c :: s) =
  match match_open (c :: s) with
  | Some rest => replace_open rest
  | None => c :: replace_open s
  end.
Proof.
  simp replace_open.
  generalize (inspect (match_open (c :: s))).
  intros [[rest|] e]; simp replace_open; rewrite e; reflexivity.
Qed.

Lemma is_backtick_eq (c : N) : is_backtick c = true -> c = backtick.
Proof. unfold is_backtick. apply N.eqb_eq. Qed.

Lemma starts_fence_true (s : jsstring) :
  starts_fence s = true -> exists rest, s = fence ++ rest.
Proof.
  destruct s as [|c1 [|c2 [|c3 rest]]]; simpl; try discriminate.
  intros H. apply andb_prop in H as [H H3]. apply andb_prop in H as [H1 H2].
  apply is_backtick_eq in H1, H2, H3. subst. exists rest. reflexivity.
Qed.

Lemma match_open_starts (s rest : jsstring) :
  match_open s = Some rest -> starts_fence s = true.
Proof.
  destruct s as [|c1 [|c2 [|c3 s']]]; simpl; try discriminate.
  destruct (is_backtick c1 && is_backtick c2 && is_backtick c3);
    [reflexivity|discriminate].
Qed.

Lemma match_open_none (s : jsstring) :
  starts_fence s = false -> match_open s = None.
Proof.
  destruct (match_open s) as [rest|] eqn:E; [|reflexivity].
  apply match_open_starts in E. congruence.
Qed.

Lemma has_fence_cons (c : N) (s : jsstring) :
  has_fence (c :: s) = false ->
  starts_fence (c :: s) = false /\ has_fence s = false.
Proof. cbn [has_fence]. apply orb_false_elim. Qed.

(** Neither replacement touches a text without three backticks in a row. *)
Lemma replace_open_clean (s : jsstring) :
  has_fence s = false -> replace_open s = s.
Proof.
  induction s as [|c s IH]; intros H.
  - reflexivity.
  - apply has_fence_cons in H as [H1 H2].
    rewrite replace_open_cons, (match_open_none _ H1), (IH H2). reflexivity.
Qed.

Lemma replace_fence_cons (c : N) (s : jsstring) :
  starts_fence (c :: s) = false ->
  replace_fence (c :: s) = c :: replace_fence s.
Proof.
  destruct s as [|c2 [|c3 rest]]; try reflexivity.
  cbn [starts_fence replace_fence]. intros ->. reflexivity.
Qed.

Lemma replace_fence_fence (s : jsstring) :
  replace_fence (fence ++ s) = replace_fence s.
Proof. reflexivity. Qed.

Lemma replace_fence_clean (s : jsstring) :
  has_fence s = false -> replace_fence s = s.
Proof.
  induction s as [|c s IH]; intros H.
  - reflexivity.
  - apply has_fence_cons in H as [H1 H2].
    rewrite (replace_fence_cons _ _ H1), (IH H2). reflexivity.
Qed.

(** Induction along the scan of [replace_fence]: either three backticks are
    dropped, or one code unit is kept. *)
Lemma fence_scan_ind (P : jsstring -> Prop) :
  P [] ->
  (forall rest, P rest -> P (fence ++ rest)) ->
  (forall c s, starts_fence (c :: s) = false -> P s -> P (c :: s)) ->
  forall s, P s.
Proof.
  intros Hnil Hfence Hkeep s.
  remember (length s) as n eqn:Hn. revert s Hn.
  induction n as [n IH] using lt_wf_ind. intros s Hn.
  destruct s as [|c s']; [exact Hnil|].
  destruct (starts_fence (c :: s')) eqn:E.
  - destruct (starts_fence_true _ E) as [rest Hrest]. rewrite Hrest.
    apply Hfence. apply (IH (length rest)); [|reflexivity].
    subst n. rewrite Hrest. simpl. lia.
  - apply Hkeep; [exact E|].
    apply (IH (length s')); [|reflexivity]. subst n. simpl. lia.
Qed.

Lemma starts_fence_head (c : N) (s : jsstring) :
  is_backtick c = false -> starts_fence (c :: s) = false.
Proof.
  intros H. destruct s as [|c2 [|c3 rest]]; try reflexivity.
  cbn [starts_fence]. rewrite H. reflexivity.
Qed.

(** Where the scan keeps the first code unit, the result does not start
    with three backticks. *)
Lemma replace_fence_keeps_no_start (s : jsstring) :
  starts_fence s = false -> starts_fence (replace_fence s) = false.
Proof.
  destruct s as [|c1 [|c2 [|c3 s3]]]; try reflexivity.
  intros H. rewrite (replace_fence_cons _ _ H). cbn [starts_fence] in H.
  destruct (is_backtick c1) eqn:E1; [|apply starts_fence_head; exact E1].
  destruct (is_backtick c2) eqn:E2.
  - destruct (is_backtick c3) eqn:E3; [discriminate|].
    rewrite (replace_fence_cons c2 (c3 :: s3)).
    2:{ cbn [starts_fence]. destruct s3; [reflexivity|].
        rewrite E3, andb_false_r. reflexivity. }
    rewrite (replace_fence_cons c3 s3) by (apply starts_fence_head; exact E3).
    cbn [starts_fence]. rewrite E3, andb_false_r. reflexivity.
  - rewrite (replace_fence_cons c2 (c3 :: s3))
      by (apply starts_fence_head; exact E2).
    destruct (replace_fence (c3 :: s3)); [reflexivity|].
    cbn [starts_fence]. rewrite E2, andb_false_r. reflexivity.
Qed.

Lemma replace_fence_no_start (s : jsstring) :
  starts_fence (replace_fence s) = false.
Proof.
  induction s as [|rest IH|c s E _] using fence_scan_ind.
  - reflexivity.
  - rewrite replace_fence_fence. exact IH.
  - apply replace_fence_keeps_no_start. exact E.
Qed.

(** After the second replacement no three backticks in a row are left. *)
Lemma replace_fence_no_fence (s : jsstring) :
  has_fence (replace_fence s) = false.
Proof.
  induction s as [|rest IH|c s E IH] using fence_scan_ind.
  - reflexivity.
  - rewrite replace_fence_fence. exact IH.
  - pose proof (replace_fence_no_start (c :: s)) as Hs.
    rewrite (replace_fence_cons _ _ E) in *.
    cbn [has_fence]. rewrite Hs, IH. reflexivity.
Qed.

(** [has_fence] decides the occurrence of the delimiter. *)
Lemma has_fence_occurs (s : jsstring) :
  has_fence s = true <-> exists pre post, s = pre ++ fence ++ post.
Proof.
  split.
  - induction s as [|c s IH]; [discriminate|].
    cbn [has_fence]. intros H. apply orb_prop in H as [H|H].
    + destruct (starts_fence_true _ H) as [rest ->]. exists [], rest. reflexivity.
    + destruct (IH H) as (pre & post & ->). exists (c :: pre), post. reflexivity.
  - intros (pre & post & ->). induction pre as [|c pre IH].
    + reflexivity.
    + change ((c :: pre) ++ fence ++ post) with (c :: (pre ++ fence ++ post)).
      cbn [has_fence]. rewrite IH. apply orb_true_r.
Qed.

Lemma has_fence_app_r (a t : jsstring) :
  has_fence (a ++ t) = false -> has_fence t = false.
Proof.
  induction a as [|c a IH]; [trivial|].
  intros H. change ((c :: a) ++ t) with (c :: (a ++ t)) in H.
  apply has_fence_cons in H as [_ H]. auto.
Qed.

Lemma starts_fence_app (t b : jsstring) :
  starts_fence t = true -> starts_fence (t ++ b) = true.
Proof. destruct t as [|c1 [|c2 [|c3 t]]]; try discriminate. trivial. Qed.

Lemma has_fence_app_l (t b : jsstring) :
  has_fence (t ++ b) = false -> has_fence t = false.
Proof.
  induction t as [|c t IH]; [reflexivity|].
  intros H. change ((c :: t) ++ b) with (c :: (t ++ b)) in H.
  apply has_fence_cons in H as [H1 H2].
  cbn [has_fence]. rewrite (IH H2), orb_false_r.
  destruct (starts_fence (c :: t)) eqn:E; [|reflexivity].
  apply (starts_fence_app _ b) in E.
  change ((c :: t) ++ b) with (c :: (t ++ b)) in E. congruence.
Qed.

(** ** Trimming *)

Lemma trimStart_suffix (s : jsstring) : exists pre, s = pre ++ trimStart s.
Proof.
  induction s as [|c s [pre IH]]; [exists []; reflexivity|].
  simpl. destruct (is_space c).
  - exists (c :: pre). simpl. f_equal. exact IH.
  - exists []. reflexivity.
Qed.

Lemma trimEnd_prefix (s : jsstring) : exists post, s = trimEnd s ++ post.
Proof.
  unfold trimEnd. destruct (trimStart_suffix (rev s)) as [pre H].
  exists (rev pre). rewrite <- rev_app_distr, <- H, rev_involutive. reflexivity.
Qed.

Lemma trim_no_fence (s : jsstring) :
  has_fence s = false -> has_fence (trim s) = false.
Proof.
  intros H. unfold trim.
  destruct (trimStart_suffix s) as [pre Hpre].
  destruct (trimEnd_prefix (trimStart s)) as [post Hpost].
  rewrite Hpre in H. apply has_fence_app_r in H.
  rewrite Hpost in H. apply has_fence_app_l in H. exact H.
Qed.

Lemma trimStart_idem (s : jsstring) : trimStart (trimStart s) = trimStart s.
Proof.
  induction s as [|c s IH]; [reflexivity|].
  simpl. destruct (is_space c) eqn:E; [exact IH|].
  simpl. rewrite E. reflexivity.
Qed.

Lemma trimEnd_idem (s : jsstring) : trimEnd (trimEnd s) = trimEnd s.
Proof. unfold trimEnd. rewrite rev_involutive, trimStart_idem. reflexivity. Qed.

Lemma trimStart_snoc (l : jsstring) (c : N) :
  trimStart (l ++ [c]) =
  match trimStart l with
  | [] => if is_space c then [] else [c]
  | r => r ++ [c]
  end.
Proof.
  induction l as [|x l IH]; [reflexivity|].
  simpl. destruct (is_space x); [exact IH|reflexivity].
Qed.

(** A first code unit that is not white space survives [trimEnd]. *)
Lemma trimEnd_keeps_head (c : N) (s : jsstring) :
  is_space c = false -> exists r, trimEnd (c :: s) = c :: r.
Proof.
  intros Hc. unfold trimEnd. simpl rev. rewrite trimStart_snoc.
  destruct (trimStart (rev s)) as [|x r].
  - rewrite Hc. exists []. reflexivity.
  - exists (rev (x :: r)). rewrite rev_app_distr. reflexivity.
Qed.

Lemma trimStart_head (s : jsstring) :
  match trimStart s with
  | [] => True
  | c :: _ => is_space c = false
  end.
Proof.
  induction s as [|c s IH]; [exact I|].
  simpl. destruct (is_space c) eqn:E; [exact IH|exact E].
Qed.

Lemma trimStart_trim (s : jsstring) : trimStart (trim s) = trim s.
Proof.
  unfold trim. pose proof (trimStart_head s) as H.
  destruct (trimStart s) as [|c t]; [reflexivity|].
  destruct (trimEnd_keeps_head c t H) as [r ->].
  simpl. rewrite H. reflexivity.
Qed.

Lemma trim_idem (s : jsstring) : trim (trim s) = trim s.
Proof.
  unfold trim at 1. rewrite trimStart_trim.
  unfold trim. apply trimEnd_idem.
Qed.

(** A text whose first and last code units are not white space is left
    alone by [trim]. *)
Lemma trim_clean (s : jsstring) :
  (forall c t, s = c :: t -> is_space c = false) ->
  (forall c t, s = t ++ [c] -> is_space c = false) ->
  trim s = s.
Proof.
  intros Hhd Hlast. unfold trim.
  assert (trimStart s = s) as ->.
  { destruct s as [|c t]; [reflexivity|].
    simpl. rewrite (Hhd c t eq_refl). reflexivity. }
  unfold trimEnd. destruct (rev s) as [|c t] eqn:E.
  - apply (f_equal (@rev N)) in E. rewrite rev_involutive in E. subst. reflexivity.
  - apply (f_equal (@rev N)) in E. rewrite rev_involutive in E. simpl in E.
    simpl. rewrite (Hlast c (rev t) E). simpl. symmetry. exact E.
Qed.

Lemma trim_unspaced (s : jsstring) :
  leading_space s = false -> trailing_space s = false -> trim s = s.
Proof.
  intros Hl Ht. apply trim_clean.
  - intros c t ->. exact Hl.
  - intros c t ->. unfold trailing_space in Ht.
    rewrite rev_app_distr in Ht. exact Ht.
Qed.

(** ** Fenced texts *)

Lemma skip_word_app (lang rest : jsstring) :
  forallb is_word lang = true -> skip_word (lang ++ rest) = skip_word rest.
Proof.
  induction lang as [|c lang IH]; [reflexivity|].
  simpl. intros H. apply andb_prop in H as [-> H]. auto.
Qed.

Lemma match_open_marker (lang rest : jsstring) :
  forallb is_word lang = true ->
  match_open (fence ++ lang ++ newline :: rest) = Some rest.
Proof.
  intros H. cbn [fence app match_open].
  change (is_backtick backtick) with true. cbn [andb].
  rewrite (skip_word_app _ _ H). reflexivity.
Qed.

Lemma replace_open_match (s rest : jsstring) :
  match_open s = Some rest -> replace_open s = replace_open rest.
Proof.
  destruct s as [|c s]; [discriminate|].
  intros H. rewrite replace_open_cons, H. reflexivity.
Qed.

Lemma match_open_before_fence (c : N) (s : jsstring) :
  has_fence (c :: s) = false -> match_open ((c :: s) ++ fence) = None.
Proof.
  intros H. destruct s as [|c2 [|c3 s3]].
  - cbn. destruct (is_backtick c); reflexivity.
  - cbn. destruct (is_backtick c), (is_backtick c2); reflexivity.
  - apply has_fence_cons in H as [H _]. cbn [starts_fence] in H.
    cbn [app match_open]. rewrite H. reflexivity.
Qed.

(** A closing delimiter at the end of a text without delimiters is no
    opening marker, whatever backticks the text ends with. *)
Lemma replace_open_before_fence (interior : jsstring) :
  has_fence interior = false ->
  replace_open (interior ++ fence) = interior ++ fence.
Proof.
  induction interior as [|c s IH]; intros H.
  - reflexivity.
  - change ((c :: s) ++ fence) with (c :: (s ++ fence)).
    rewrite replace_open_cons.
    change (c :: (s ++ fence)) with ((c :: s) ++ fence).
    rewrite (match_open_before_fence _ _ H).
    apply has_fence_cons in H as [_ H]. rewrite (IH H). reflexivity.
Qed.

Lemma replace_fence_before_fence (interior : jsstring) :
  has_fence interior = false -> replace_fence (interior ++ fence) = interior.
Proof.
  induction interior as [|c s IH]; intros H.
  - reflexivity.
  - destruct s as [|c2 [|c3 s3]].
    + cbn. destruct (is_backtick c) eqn:E; [|reflexivity].
      apply is_backtick_eq in E. subst. reflexivity.
    + cbn. destruct (is_backtick c) eqn:E, (is_backtick c2) eqn:E2;
        try apply is_backtick_eq in E; try apply is_backtick_eq in E2;
        subst; reflexivity.
    + pose proof H as H'. apply has_fence_cons in H' as [H1 H2].
      change ((c :: c2 :: c3 :: s3) ++ fence)
        with (c :: ((c2 :: c3 :: s3) ++ fence)).
      rewrite replace_fence_cons, (IH H2); [reflexivity|].
      cbn [starts_fence] in H1. cbn [app starts_fence]. exact H1.
Qed.

Lemma no_backtick_cons (c : N) (s : jsstring) :
  no_backtick (c :: s) = true -> is_backtick c = false /\ no_backtick s = true.
Proof.
  unfold no_backtick. cbn [forallb]. intros H.
  apply andb_prop in H as [H1 H2]. split; [|exact H2].
  destruct (is_backtick c); [discriminate|reflexivity].
Qed.

(** Both scans copy a stretch without backticks. *)
Lemma replace_open_skip (pre s : jsstring) :
  no_backtick pre = true -> replace_open (pre ++ s) = pre ++ replace_open s.
Proof.
  induction pre as [|c pre IH]; intros H; [reflexivity|].
  apply no_backtick_cons in H as [Hc H].
  change ((c :: pre) ++ s) with (c :: (pre ++ s)).
  rewrite replace_open_cons, match_open_none by (apply starts_fence_head, Hc).
  rewrite (IH H). reflexivity.
Qed.

Lemma replace_fence_skip (pre s : jsstring) :
  no_backtick pre = true -> replace_fence (pre ++ s) = pre ++ replace_fence s.
Proof.
  induction pre as [|c pre IH]; intros H; [reflexivity|].
  apply no_backtick_cons in H as [Hc H].
  change ((c :: pre) ++ s) with (c :: (pre ++ s)).
  rewrite replace_fence_cons by (apply starts_fence_head, Hc).
  rewrite (IH H). reflexivity.
Qed.

(** A delimiter that opens no marker and is followed by no further backtick
    passes the first scan untouched. *)
Lemma replace_open_bare_fence (post : jsstring) :
  match_open (fence ++ post) = None ->
  leading_backtick post = false ->
  replace_open (fence ++ post) = fence ++ replace_open post.
Proof.
  intros Hm Hb. unfold fence in *. cbn [app] in *.
  rewrite replace_open_cons, Hm.
  assert (match_open (backtick :: backtick :: post) = None) as H2.
  { destruct post as [|c post]; [reflexivity|].
    cbn [leading_backtick] in Hb. cbn [match_open]. rewrite Hb, andb_false_r.
    reflexivity. }
  assert (match_open (backtick :: post) = None) as H1.
  { destruct post as [|c [|c' post]]; try reflexivity.
    cbn [leading_backtick] in Hb. cbn [match_open].
    rewrite Hb, andb_false_r. reflexivity. }
  rewrite replace_open_cons, H2, replace_open_cons, H1. reflexivity.
Qed.

End SanitizerFacts.

(** * The sanitizer: fences, idempotence, absence of delimiters *)

Section SanitizerClaims.
Import Sanitizer.

Lemma cleanCode_has_no_fence (x : jsstring) : has_fence (cleanCode x) = false.
Proof. apply trim_no_fence, replace_fence_no_fence. Qed.

Lemma cleanCode_clean (x : jsstring) :
  has_fence x = false -> cleanCode x = trim x.
Proof.
  intros H. unfold cleanCode.
  rewrite (replace_open_clean _ H), (replace_fence_clean _ H). reflexivity.
Qed.

(** C10: for every input, the output of [cleanCode] contains no run of three
    backticks: it can never be split as some text, the delimiter, and some
    text. *)
Theorem cleanCode_no_fence (x pre post : jsstring) :
  cleanCode x <> pre ++ fence ++ post.
Proof.
  intros H. pose proof (cleanCode_has_no_fence x) as Hn.
  assert (has_fence (cleanCode x) = true) as Ht
    by (apply has_fence_occurs; exists pre, post; exact H).
  congruence.
Qed.

(** C7: [cleanCode] is idempotent, and a text without delimiter and without
    white space at either end is returned unchanged. *)
Theorem cleanCode_idempotent (x : jsstring) :
  cleanCode (cleanCode x) = cleanCode x
  /\ (has_fence x = false -> leading_space x = false ->
      trailing_space x = false -> cleanCode x = x).
Proof.
  split.
  - rewrite (cleanCode_clean _ (cleanCode_has_no_fence x)).
    unfold cleanCode. apply trim_idem.
  - intros Hf Hl Ht. rewrite (cleanCode_clean _ Hf).
    apply trim_unspaced; assumption.
Qed.

Lemma cleanCode_idempotent_witness :
  let x := lit "  ```ts" ++ [newline] ++ lit "let x = 1; ```" in
  let y := lit "let x = 1;" in
  cleanCode (cleanCode x) = cleanCode x /\ cleanCode y = y.
Proof.
  intros x y. split.
  - exact (proj1 (cleanCode_idempotent x)).
  - apply (proj2 (cleanCode_idempotent y)); reflexivity.
Defined.

(** C8, as stated, fails: the spec's sanitizer takes an opening marker off
    only at the start of the text, [cleanCode] takes it off in the middle
    too, language tag and newline included. *)
Lemma opening_marker_removed_mid_text :
  let x := lit "a```js" ++ [newline] ++ lit "b" in
  cleanCode x = lit "ab"
  /\ sanitize_leading_only x = lit "ajs" ++ [newline] ++ lit "b"
  /\ cleanCode x <> sanitize_leading_only x.
Proof.
  intros x. repeat split; try (vm_compute; reflexivity).
  vm_compute. discriminate.
Qed.

(** The greedy run of word characters over a concatenation. *)
Lemma skip_word_over (a u : jsstring) :
  skip_word (a ++ u) =
  match skip_word a with
  | [] => skip_word u
  | r => r ++ u
  end.
Proof.
  induction a as [|c a IH]; [reflexivity|].
  simpl. destruct (is_word c); [exact IH|reflexivity].
Qed.

(** A match stays a match when the text goes on. *)
Lemma match_open_extends (s rest t : jsstring) :
  match_open s = Some rest -> match_open (s ++ t) = Some (rest ++ t).
Proof.
  destruct s as [|c1 [|c2 [|c3 s']]]; simpl; try discriminate.
  destruct (is_backtick c1 && is_backtick c2 && is_backtick c3); [|discriminate].
  rewrite skip_word_over.
  destruct (skip_word s') as [|c r]; [discriminate|]. simpl.
  destruct (N.eqb c newline); [|discriminate].
  intros [= <-]. reflexivity.
Qed.

(** No match starts before a delimiter and runs into it: the backtick that
    follows is neither a word character nor the newline. *)
Lemma match_open_blocked (c : N) (s t : jsstring) :
  match_open (c :: s) = None -> match_open ((c :: s) ++ fence ++ t) = None.
Proof.
  destruct s as [|c2 [|c3 s3]].
  - intros _. cbn. destruct (is_backtick c); reflexivity.
  - intros _. cbn. destruct (is_backtick c), (is_backtick c2); reflexivity.
  - cbn [app match_open].
    destruct (is_backtick c && is_backtick c2 && is_backtick c3); [|reflexivity].
    rewrite skip_word_over.
    destruct (skip_word s3) as [|x r]; [intros _; reflexivity|].
    simpl. destruct (N.eqb x newline); [discriminate|reflexivity].
Qed.

(** The first replacement takes an opening marker out wherever it stands:
    what comes before and what comes after are scanned as if apart. *)
Lemma replace_open_marker_anywhere (lang post : jsstring) :
  forallb is_word lang = true ->
  forall pre,
    replace_open (pre ++ fence ++ lang ++ newline :: post)
    = replace_open pre ++ replace_open post.
Proof.
  intros Hlang pre.
  remember (length pre) as n eqn:Hn. revert pre Hn.
  induction n as [n IH] using lt_wf_ind. intros pre Hn.
  destruct pre as [|c pre].
  - cbn [app]. apply replace_open_match, match_open_marker, Hlang.
  - rewrite (replace_open_cons c pre).
    change ((c :: pre) ++ fence ++ lang ++ newline :: post)
      with (c :: (pre ++ fence ++ lang ++ newline :: post)).
    rewrite replace_open_cons.
    change (c :: (pre ++ fence ++ lang ++ newline :: post))
      with ((c :: pre) ++ fence ++ lang ++ newline :: post).
    destruct (match_open (c :: pre)) as [rest|] eqn:E.
    + rewrite (match_open_extends _ _ E).
      apply (IH (length rest)); [|reflexivity].
      subst n. apply (match_open_shorter _ E).
    + rewrite (match_open_blocked _ _ _ E).
      rewrite (IH (length pre)); [reflexivity| |reflexivity].
      subst n. simpl. lia.
Qed.

Lemma starts_fence_before_fence (c : N) (s post : jsstring) :
  starts_fence ((c :: s) ++ fence ++ post) = false ->
  starts_fence ((c :: s) ++ post) = false.
Proof.
  destruct s as [|c2 [|c3 s3]]; cbn.
  - rewrite !andb_true_r. intros ->. destruct post as [|? [|? ?]]; reflexivity.
  - rewrite !andb_true_r. intros ->. destruct post; reflexivity.
  - trivial.
Qed.

(** The second replacement takes a delimiter out wherever it stands:
    three backticks put anywhere into a text do not change its result. *)
Lemma replace_fence_fence_anywhere (post pre : jsstring) :
  replace_fence (pre ++ fence ++ post) = replace_fence (pre ++ post).
Proof.
  induction pre as [|rest IH|c s E IH] using fence_scan_ind.
  - reflexivity.
  - rewrite <- !app_assoc, !replace_fence_fence. exact IH.
  - destruct (starts_fence ((c :: s) ++ fence ++ post)) eqn:E1.
    + destruct s as [|c2 [|c3 s3]].
      * cbn in E1. rewrite !andb_true_r in E1.
        apply is_backtick_eq in E1. subst. reflexivity.
      * cbn in E1. rewrite !andb_true_r in E1. apply andb_prop in E1 as [H1 H2].
        apply is_backtick_eq in H1, H2. subst. reflexivity.
      * cbn in E1, E. congruence.
    + pose proof (starts_fence_before_fence _ _ _ E1) as E2.
      change ((c :: s) ++ fence ++ post) with (c :: (s ++ fence ++ post)) in *.
      change ((c :: s) ++ post) with (c :: (s ++ post)) in *.
      rewrite (replace_fence_cons _ _ E1), (replace_fence_cons _ _ E2), IH.
      reflexivity.
Qed.

(** C8, amended: a text made of an opening marker (the delimiter, a tag of
    word characters, a newline), an interior without delimiter and a closing
    delimiter is sanitized to its trimmed interior; and markers are removed
    wherever they appear, whatever stands before and after them.  The first
    replacement takes an opening marker out of any text, leaving what it
    leaves of the text before and of the text after; the second replacement
    takes a delimiter out of any text, as if it had not been there; and no
    delimiter is left in what [cleanCode] returns. *)
Theorem cleanCode_fenced (lang interior pre post : jsstring) :
  forallb is_word lang = true ->
  has_fence interior = false ->
  cleanCode (fence ++ lang ++ newline :: interior ++ fence) = trim interior
  /\ replace_open (pre ++ fence ++ lang ++ newline :: post)
     = replace_open pre ++ replace_open post
  /\ cleanCode (pre ++ fence ++ lang ++ newline :: post)
     = trim (replace_fence (replace_open pre ++ replace_open post))
  /\ replace_fence (pre ++ fence ++ post) = replace_fence (pre ++ post)
  /\ has_fence (cleanCode (pre ++ fence ++ post)) = false.
Proof.
  intros Hlang Hint. repeat split.
  - unfold cleanCode.
    rewrite (replace_open_match _ (match_open_marker lang _ Hlang)).
    rewrite (replace_open_before_fence _ Hint).
    rewrite (replace_fence_before_fence _ Hint). reflexivity.
  - apply replace_open_marker_anywhere, Hlang.
  - unfold cleanCode.
    rewrite (@replace_open_marker_anywhere lang post Hlang pre). reflexivity.
  - apply replace_fence_fence_anywhere.
  - apply cleanCode_has_no_fence.
Qed.

Lemma cleanCode_fenced_witness :
  let lang := lit "ts" in
  let interior := [newline] ++ lit "let x = `1`; " ++ [newline] in
  let pre := lit "see `a`, ``" in
  let post := lit "`` end" in
  cleanCode (fence ++ lang ++ newline :: interior ++ fence) = lit "let x = `1`;"
  /\ replace_open (pre ++ fence ++ lang ++ newline :: post) = pre ++ post
  /\ cleanCode (pre ++ fence ++ lang ++ newline :: post) = lit "see `a`, ` end"
  /\ replace_fence (pre ++ fence ++ post) = lit "see `a`, ` end"
  /\ has_fence (cleanCode (pre ++ fence ++ post)) = false.
Proof.
  intros lang interior pre post.
  destruct (@cleanCode_fenced lang interior pre post eq_refl eq_refl)
    as (H1 & H2 & H3 & H4 & H5).
  rewrite H1, H2, H3, H4, H5. repeat split; vm_compute; reflexivity.
Defined.

End SanitizerClaims.

(** * The retry loop *)

Section ClientFacts.
Import Js World Client.

Lemma advance_nil (w : world) : advance [] 0 w = w.
Proof. destruct w. unfold advance. simpl. rewrite app_nil_r. reflexivity. Qed.

Lemma advance_advance (e1 e2 : list event) (n : nat) (w : world) :
  advance e2 n (advance e1 1 w) = advance (e1 ++ e2) (S n) w.
Proof.
  unfold advance. simpl. rewrite app_assoc, Nat.add_succ_r. reflexivity.
Qed.

Lemma emit_sent (e : event) (w : world) : emit e (sent w) = advance [e] 1 w.
Proof. reflexivity. Qed.

Lemma emit_advance (e : event) (evs : list event) (n : nat) (w : world) :
  emit e (advance evs n w) = advance (evs ++ [e]) n w.
Proof. unfold emit, advance. simpl. rewrite app_assoc. reflexivity. Qed.

(** Closes a goal that both sides compute to the same world and result,
    up to the bracketing of the event list. *)
Ltac same_world :=
  unfold sleep, ret, throw, lift, emit, sent, advance; cbn;
  rewrite <- ?app_assoc; reflexivity.

Lemma ok_not_429 (status : Z) : ok status = true -> (status =? 429)%Z = false.
Proof.
  unfold ok. intros H. apply andb_prop in H as [_ H].
  apply Z.leb_le in H. apply Z.eqb_neq. lia.
Qed.

(** One attempt, by the answer it gets. *)
Lemma attempt_rate_limited (req : request) (retries attempt : nat)
  (w : world) (body : option json) :
  server w (fetches w) req = Response 429 body ->
  attempt_body req retries attempt w =
  (advance [EvFetch req; EvSleep (2000 * Z.of_nat attempt)] 1 w, Return None).
Proof.
  intros H. unfold attempt_body, try_catch, bind, fetch. rewrite H.
  same_world.
Qed.

Lemma attempt_success (req : request) (retries attempt : nat) (w : world)
  (status : Z) (data : json) (v : value) :
  server w (fetches w) req = Response status (Some data) ->
  ok status = true ->
  first_choice_content data = Return v ->
  attempt_body req retries attempt w = (advance [EvFetch req] 1 w, Return (Some v)).
Proof.
  intros H Hok Hv. unfold attempt_body, try_catch, bind, fetch. rewrite H.
  cbn. rewrite (ok_not_429 _ Hok), Hok. cbn. unfold lift. rewrite Hv.
  same_world.
Qed.

Lemma attempt_throws (req : request) (retries attempt : nat) (w : world)
  (e : error) :
  failure (server w (fetches w) req) = Some e ->
  attempt_body req retries attempt w =
  if Nat.eqb attempt retries then (advance [EvFetch req] 1 w, Throw e)
  else (advance [EvFetch req; EvSleep 1000] 1 w, Return None).
Proof.
  unfold failure, attempt_body, try_catch, bind, fetch.
  destruct (server w (fetches w) req) as [|status body].
  - intros [= <-]. destruct (Nat.eqb attempt retries); same_world.
  - cbn. destruct (status =? 429)%Z; [discriminate|].
    destruct (ok status); cbn.
    + unfold lift. destruct body as [data|].
      * destruct (first_choice_content data) as [v|e']; [discriminate|].
        intros [= <-]. destruct (Nat.eqb attempt retries); same_world.
      * intros [= <-]. destruct (Nat.eqb attempt retries); same_world.
    + intros [= <-]. destruct (Nat.eqb attempt retries); same_world.
Qed.

Lemma attempts_S (req : request) (retries remaining attempt : nat) (w : world) :
  attempts req retries (S remaining) attempt w =
  match attempt_body req retries attempt w with
  | (w', Return (Some v)) => (w', Return v)
  | (w', Return None) => attempts req retries remaining (S attempt) w'
  | (w', Throw e) => (w', Throw e)
  end.
Proof.
  cbn [attempts]. unfold bind.
  destruct (attempt_body req retries attempt w) as [w' [[v|]|e]]; reflexivity.
Qed.

(** [n] rate-limited attempts in a row: the loop backs off [n] times and
    goes on with what is left of the budget. *)
Lemma attempts_backoff (req : request) (retries : nat) :
  forall n remaining attempt w,
    (forall i, i < n ->
       exists body, server w (i + fetches w) req = Response 429 body) ->
    attempts req retries (n + remaining) attempt w =
    attempts req retries remaining (n + attempt)
             (advance (backoff req attempt n) n w).
Proof.
  induction n as [|n IH]; intros remaining attempt w H.
  - cbn. rewrite advance_nil. reflexivity.
  - destruct (H 0 (Nat.lt_0_succ n)) as [body H0].
    change (S n + remaining) with (S (n + remaining)).
    rewrite attempts_S, (attempt_rate_limited _ _ _ _ H0).
    rewrite IH.
    + rewrite advance_advance, Nat.add_succ_r. reflexivity.
    + intros i Hi. destruct (H (S i)) as [b Hb]; [lia|].
      exists b. cbn. rewrite Nat.add_succ_r. exact Hb.
Qed.

(** [n] failed attempts in a row, none of them the last of the budget: each
    is followed by a sleep of one second and the next attempt. *)
Lemma attempts_retried (req : request) (retries : nat) :
  forall n remaining attempt w,
    n + attempt <= retries ->
    (forall i, i < n -> failure (server w (i + fetches w) req) <> None) ->
    attempts req retries (n + remaining) attempt w =
    attempts req retries remaining (n + attempt)
             (advance (flat_map (fun _ => [EvFetch req; EvSleep 1000])
                                (seq attempt n)) n w).
Proof.
  induction n as [|n IH]; intros remaining attempt w Hle H.
  - cbn. rewrite advance_nil. reflexivity.
  - pose proof (H 0 (Nat.lt_0_succ n)) as H0. cbn in H0.
    destruct (failure (server w (fetches w) req)) as [e|] eqn:E; [|congruence].
    change (S n + remaining) with (S (n + remaining)).
    rewrite attempts_S, (attempt_throws _ _ _ _ E).
    assert (Nat.eqb attempt retries = false) as -> by (apply Nat.eqb_neq; lia).
    rewrite IH.
    + rewrite advance_advance, Nat.add_succ_r. reflexivity.
    + lia.
    + intros i Hi. cbn. rewrite Nat.add_succ_r. apply (H (S i)). lia.
Qed.

Lemma message_content_first_choice (data : json) (c : jsstring) :
  message_content data = Some c ->
  first_choice_content data = Return (Val (JStr c)).
Proof.
  unfold message_content, first_choice_content.
  destruct data as [| | | |items|fields]; try discriminate.
  cbn [get]. destruct (lookup (lit "choices") fields) as [|[| | | |[|first ?]|]];
    try discriminate.
  destruct first as [| | | | |first]; try discriminate.
  unfold opt_get. cbn [get0 get].
  destruct (lookup (lit "message") first) as [|[| | | | |msg]]; try discriminate.
  cbn [get]. destruct (lookup (lit "content") msg) as [|[| | |s| |]];
    try discriminate.
  intros [= ->]. destruct c; reflexivity.
Qed.

End ClientFacts.

(** * The LLM client: back-off, failure, exhaustion, malformed answers *)

Section ClientClaims.
Import Js World Client Examples.

Lemma advance_one (e1 e2 : list event) (n : nat) (w : world) :
  advance e2 1 (advance e1 n w) = advance (e1 ++ e2) (S n) w.
Proof. unfold advance. simpl. rewrite app_assoc. reflexivity. Qed.

Lemma sleeps_app (a b : list event) : sleeps (a ++ b) = sleeps a ++ sleeps b.
Proof. apply flat_map_app. Qed.

Lemma sleeps_backoff (req : request) (count attempt : nat) :
  sleeps (backoff req attempt count) =
  map (fun i => (2000 * Z.of_nat i)%Z) (seq attempt count).
Proof.
  revert attempt. induction count as [|n IH]; intros attempt; [reflexivity|].
  cbn. f_equal. apply IH.
Qed.

Lemma requests_app (a b : list event) : requests (a ++ b) = requests a + requests b.
Proof. unfold requests. rewrite filter_app, length_app. reflexivity. Qed.

Lemma requests_backoff (req : request) (count attempt : nat) :
  requests (backoff req attempt count) = count.
Proof.
  revert attempt. induction count as [|n IH]; intros attempt; [reflexivity|].
  unfold requests in *. cbn. f_equal. apply IH.
Qed.

Lemma sleeps_retrying (req : request) (count attempt : nat) :
  sleeps (flat_map (fun _ => [EvFetch req; EvSleep 1000]) (seq attempt count))
  = repeat 1000%Z count.
Proof.
  revert attempt. induction count as [|n IH]; intros attempt; [reflexivity|].
  cbn. f_equal. apply IH.
Qed.

Lemma requests_retrying (req : request) (count attempt : nat) :
  requests (flat_map (fun _ => [EvFetch req; EvSleep 1000]) (seq attempt count))
  = count.
Proof.
  revert attempt. induction count as [|n IH]; intros attempt; [reflexivity|].
  unfold requests in *. cbn. f_equal. apply IH.
Qed.

(** C3: with a credential, if the first k-1 answers are 429 and the k-th is
    a success with text [c], for 1 <= k <= retries, the client returns [c];
    it has sent k requests and slept k-1 times, for 2000*1, ..., 2000*(k-1)
    milliseconds in this order, each sleep right after its request. *)
Theorem backoff_then_success (w : world) (key : jsstring)
  (messages : list message) (temperature : decimal) (retries k : nat)
  (status : Z) (data : json) (c : jsstring) :
  api_key w = Some key ->
  present (Some key) = true ->
  1 <= k <= retries ->
  (forall i, i < k - 1 ->
     exists body, server w (i + fetches w)
                    (request_for w key messages temperature) = Response 429 body) ->
  server w (k - 1 + fetches w) (request_for w key messages temperature)
    = Response status (Some data) ->
  ok status = true ->
  message_content data = Some c ->
  let req := request_for w key messages temperature in
  let trace := backoff req 1 (k - 1) ++ [EvFetch req] in
  queryOpenRouter messages temperature retries w
    = (advance trace k w, Return (Val (JStr c)))
  /\ sleeps trace = map (fun i => (2000 * Z.of_nat i)%Z) (seq 1 (k - 1))
  /\ requests trace = k.
Proof.
  intros Hkey Hpresent Hk H429 Hlast Hok Hc req trace. split; [|split].
  - unfold queryOpenRouter. rewrite Hkey.
    destruct key as [|c0 key]; [discriminate|]. fold req.
    replace retries with ((k - 1) + S (retries - k)) at 2 by lia.
    rewrite (@attempts_backoff req retries (k - 1) _ 1 w H429).
    rewrite attempts_S.
    rewrite (@attempt_success req retries _ (advance (backoff req 1 (k - 1)) (k - 1) w)
               status data (Val (JStr c))).
    + rewrite advance_one. replace (S (k - 1)) with k by lia. reflexivity.
    + exact Hlast.
    + exact Hok.
    + apply message_content_first_choice, Hc.
  - unfold trace. rewrite sleeps_app, sleeps_backoff. cbn. apply app_nil_r.
  - unfold trace. rewrite requests_app, requests_backoff. cbn. lia.
Qed.

Lemma backoff_then_success_witness :
  let w := scripted busy_twice no_files in
  let req := request_for w (lit "sk-test") hello {| digits := 7; scale := 1 |} in
  queryOpenRouter hello {| digits := 7; scale := 1 |} 5 w
    = (advance [EvFetch req; EvSleep 2000; EvFetch req; EvSleep 4000; EvFetch req] 3 w,
       Return (Val (JStr (lit "done"))))
  /\ sleeps (backoff req 1 2 ++ [EvFetch req]) = [2000; 4000]%Z
  /\ requests (backoff req 1 2 ++ [EvFetch req]) = 3.
Proof.
  intros w req.
  apply (@backoff_then_success w (lit "sk-test") hello {| digits := 7; scale := 1 |}
           5 3 200%Z (answer (lit "done")) (lit "done")).
  - reflexivity.
  - reflexivity.
  - lia.
  - intros i Hi. exists None.
    destruct i as [|[|i]]; [reflexivity|reflexivity|simpl in Hi; lia].
  - reflexivity.
  - reflexivity.
  - reflexivity.
Defined.

(** C4: with a credential and retries >= 1, if every attempt fails with an
    error other than rate limiting (rejected request, status neither 2xx nor
    429, unparsable or unreadable body), the client throws the error of the
    last attempt after exactly [retries] requests, each of the earlier ones
    followed by a sleep of 1000 ms. *)
Theorem persistent_failure_raises (w : world) (key : jsstring)
  (messages : list message) (temperature : decimal) (retries : nat)
  (e : error) :
  api_key w = Some key ->
  present (Some key) = true ->
  1 <= retries ->
  (forall i, i < retries ->
     failure (server w (i + fetches w)
                (request_for w key messages temperature)) <> None) ->
  failure (server w (retries - 1 + fetches w)
             (request_for w key messages temperature)) = Some e ->
  let req := request_for w key messages temperature in
  let trace := retried req (retries - 1) ++ [EvFetch req] in
  queryOpenRouter messages temperature retries w = (advance trace retries w, Throw e)
  /\ sleeps trace = repeat 1000%Z (retries - 1)
  /\ requests trace = retries.
Proof.
  intros Hkey Hpresent Hr Hfail Hlast req trace. split; [|split].
  - unfold queryOpenRouter. rewrite Hkey.
    destruct key as [|c0 key]; [discriminate|]. fold req.
    replace retries with ((retries - 1) + 1) at 2 by lia.
    rewrite (@attempts_retried req retries (retries - 1) 1 1 w); [|lia|].
    + rewrite attempts_S.
      rewrite (@attempt_throws req retries _
                 (advance (retried req (retries - 1)) (retries - 1) w) e)
        by exact Hlast.
      replace (retries - 1 + 1) with retries by lia.
      rewrite Nat.eqb_refl, advance_one.
      replace (S (retries - 1)) with retries by lia. reflexivity.
    + intros i Hi. apply Hfail. lia.
  - unfold trace, retried. rewrite sleeps_app, sleeps_retrying. cbn.
    apply app_nil_r.
  - unfold trace, retried. rewrite requests_app, requests_retrying. cbn. lia.
Qed.

Lemma persistent_failure_raises_witness :
  let w := scripted broken no_files in
  let req := request_for w (lit "sk-test") hello {| digits := 2; scale := 1 |} in
  queryOpenRouter hello {| digits := 2; scale := 1 |} 3 w
    = (advance [EvFetch req; EvSleep 1000; EvFetch req; EvSleep 1000; EvFetch req] 3 w,
       Throw (ApiError 500))
  /\ sleeps (retried req 2 ++ [EvFetch req]) = [1000; 1000]%Z
  /\ requests (retried req 2 ++ [EvFetch req]) = 3.
Proof.
  intros w req.
  apply (@persistent_failure_raises w (lit "sk-test") hello
           {| digits := 2; scale := 1 |} 3 (ApiError 500)).
  - reflexivity.
  - reflexivity.
  - lia.
  - intros i _. discriminate.
  - reflexivity.
Defined.

(** C5: with a credential, if every one of the [retries] attempts is
    answered 429, the client does not throw: it returns the empty string,
    after [retries] requests and as many back-off sleeps. *)
Theorem rate_limit_exhaustion (w : world) (key : jsstring)
  (messages : list message) (temperature : decimal) (retries : nat) :
  api_key w = Some key ->
  present (Some key) = true ->
  (forall i, i < retries ->
     exists body, server w (i + fetches w)
                    (request_for w key messages temperature) = Response 429 body) ->
  let req := request_for w key messages temperature in
  queryOpenRouter messages temperature retries w
    = (advance (backoff req 1 retries) retries w, Return (Val (JStr []))).
Proof.
  intros Hkey Hpresent H429 req.
  unfold queryOpenRouter. rewrite Hkey.
  destruct key as [|c0 key]; [discriminate|]. fold req.
  replace retries with (retries + 0) at 2 by lia.
  rewrite (@attempts_backoff req retries retries 0 1 w H429). reflexivity.
Qed.

Lemma rate_limit_exhaustion_witness :
  let w := scripted always_busy no_files in
  let req := request_for w (lit "sk-test") hello {| digits := 2; scale := 1 |} in
  queryOpenRouter hello {| digits := 2; scale := 1 |} 2 w
    = (advance [EvFetch req; EvSleep 2000; EvFetch req; EvSleep 4000] 2 w,
       Return (Val (JStr []))).
Proof.
  intros w req.
  apply (@rate_limit_exhaustion w (lit "sk-test") hello
           {| digits := 2; scale := 1 |} 2).
  - reflexivity.
  - reflexivity.
  - intros i _. exists None. reflexivity.
Defined.

(** What the optional chaining does cover: an answer whose [choices] has no
    first element, whose first choice has no [message], or whose message
    has no [content] yields the empty string. *)
Lemma missing_inner_field_is_empty (fields : list (jsstring * json))
  (items : list json) :
  lookup (lit "choices") fields = Val (JArr items) ->
  match items with
  | [] => True
  | JObj first :: _ =>
      match lookup (lit "message") first with
      | Undefined => True
      | Val (JObj msg) => lookup (lit "content") msg = Undefined
      | Val _ => False
      end
  | _ => False
  end ->
  first_choice_content (JObj fields) = Return empty_string.
Proof.
  intros Hc. unfold first_choice_content. cbn [get]. rewrite Hc. cbn [get0].
  destruct items as [|[| | | | |first] rest]; try contradiction; [reflexivity|].
  unfold opt_get. cbn [get].
  destruct (lookup (lit "message") first) as [|[| | | | |msg]];
    try contradiction; [reflexivity|].
  cbn [get]. intros ->. reflexivity.
Qed.

(** C6: the missed case.  A success answer without [choices] (the body
    [{}]) makes [data.choices[0]] throw a TypeError; the handler of the loop
    treats it as any other error: with one attempt allowed the client
    throws it at once, with the default five it retries four times, a second
    apart, and throws it then. *)
Theorem missing_choices_raises :
  let w := scripted no_choices no_files in
  let req := request_for w (lit "sk-test") hello {| digits := 7; scale := 1 |} in
  first_choice_content (JObj []) = Throw TypeError
  /\ queryOpenRouter hello {| digits := 7; scale := 1 |} 1 w
     = (advance [EvFetch req] 1 w, Throw TypeError)
  /\ queryOpenRouter hello {| digits := 7; scale := 1 |} default_retries w
     = (advance (retried req 4 ++ [EvFetch req]) 5 w, Throw TypeError).
Proof.
  intros w req. repeat split; vm_compute; reflexivity.
Qed.

End ClientClaims.

(** * The pipeline *)

Section PipelineFacts.
Import Sanitizer Js World Client Pipeline.

Lemma emits_nothing {A : Type} (P : event -> Prop) (m : M A) :
  (forall w, fst (m w) = w) -> emits_only P m.
Proof.
  intros H w w' r E. exists []. rewrite app_nil_r.
  specialize (H w). rewrite E in H. simpl in H. subst. split; auto.
Qed.

Lemma emits_ret {A : Type} (P : event -> Prop) (a : A) : emits_only P (ret a).
Proof. apply emits_nothing. reflexivity. Qed.

Lemma emits_throw {A : Type} (P : event -> Prop) (e : error) :
  emits_only P (@throw A e).
Proof. apply emits_nothing. reflexivity. Qed.

Lemma emits_lift {A : Type} (P : event -> Prop) (r : result A) :
  emits_only P (lift r).
Proof. apply emits_nothing. reflexivity. Qed.

Lemma emits_bind {A B : Type} (P : event -> Prop) (m : M A) (k : A -> M B) :
  emits_only P m -> (forall a, emits_only P (k a)) -> emits_only P (bind m k).
Proof.
  intros Hm Hk w w' r E. unfold bind in E.
  destruct (m w) as [w1 [a|e]] eqn:E1.
  - destruct (Hm _ _ _ E1) as (ev1 & H1 & F1).
    destruct (Hk a _ _ _ E) as (ev2 & H2 & F2).
    exists (ev1 ++ ev2). rewrite H2, H1, app_assoc. split; [reflexivity|].
    apply Forall_app. split; assumption.
  - injection E as <- <-. exact (Hm _ _ _ E1).
Qed.

Lemma emits_try_catch {A : Type} (P : event -> Prop) (m : M A)
  (handler : error -> M A) :
  emits_only P m -> (forall e, emits_only P (handler e)) ->
  emits_only P (try_catch m handler).
Proof.
  intros Hm Hh w w' r E. unfold try_catch in E.
  destruct (m w) as [w1 [a|e]] eqn:E1.
  - injection E as <- <-. exact (Hm _ _ _ E1).
  - destruct (Hm _ _ _ E1) as (ev1 & H1 & F1).
    destruct (Hh e _ _ _ E) as (ev2 & H2 & F2).
    exists (ev1 ++ ev2). rewrite H2, H1, app_assoc. split; [reflexivity|].
    apply Forall_app. split; assumption.
Qed.

Lemma emits_one {A : Type} (P : event -> Prop) (e : event) (m : M A) :
  P e -> (forall w, fst (m w) = emit e w \/ fst (m w) = w) -> emits_only P m.
Proof.
  intros He H w w' r E. specialize (H w). rewrite E in H. simpl in H.
  destruct H as [-> | ->].
  - exists [e]. split; [reflexivity|]. constructor; auto.
  - exists []. rewrite app_nil_r. split; auto.
Qed.

Lemma emits_log (P : event -> Prop) (n : notice) :
  P (EvLog n) -> emits_only P (log n).
Proof.
  intros H. apply (@emits_one _ P (EvLog n) _ H). intros w. left. reflexivity.
Qed.

Lemma emits_sleep (P : event -> Prop) (ms : Z) :
  P (EvSleep ms) -> emits_only P (sleep ms).
Proof.
  intros H. apply (@emits_one _ P (EvSleep ms) _ H). intros w. left. reflexivity.
Qed.

Lemma emits_fetch (P : event -> Prop) (req : request) :
  P (EvFetch req) -> emits_only P (fetch req).
Proof.
  intros H w w' r E. unfold fetch in E. exists [EvFetch req].
  split; [|constructor; auto].
  destruct (server w (fetches w) req); injection E as <- <-; reflexivity.
Qed.

Lemma emits_readTextFile (P : event -> Prop) (path : jsstring) :
  emits_only P (readTextFile path).
Proof.
  apply emits_nothing. intros w. unfold readTextFile.
  destruct (files w path); reflexivity.
Qed.

Lemma emits_writeTextFile (P : event -> Prop) (path text : jsstring) :
  P (EvWrite path text) -> emits_only P (writeTextFile path text).
Proof.
  intros H. apply (@emits_one _ P (EvWrite path text) _ H).
  intros w. unfold writeTextFile.
  destruct (writable w path); [left|right]; reflexivity.
Qed.

Lemma emits_attempt_body (P : event -> Prop) (req : request)
  (retries attempt : nat) :
  network_event P -> emits_only P (attempt_body req retries attempt).
Proof.
  intros [Hf Hs]. unfold attempt_body. apply emits_try_catch.
  - apply emits_bind; [apply emits_fetch, Hf|]. intros [status body].
    destruct (status =? 429)%Z.
    + apply emits_bind; [apply emits_sleep, Hs|]. intros _. apply emits_ret.
    + destruct (negb (ok status)); [apply emits_throw|].
      apply emits_bind; [apply emits_lift|]. intros data.
      apply emits_bind; [apply emits_lift|]. intros v. apply emits_ret.
  - intros e. destruct (Nat.eqb attempt retries); [apply emits_throw|].
    apply emits_bind; [apply emits_sleep, Hs|]. intros _. apply emits_ret.
Qed.

Lemma emits_attempts (P : event -> Prop) (req : request) (retries : nat) :
  network_event P ->
  forall remaining attempt, emits_only P (attempts req retries remaining attempt).
Proof.
  intros HP. induction remaining as [|n IH]; intros attempt; cbn [attempts].
  - apply emits_ret.
  - apply emits_bind; [apply emits_attempt_body, HP|].
    intros [v|]; [apply emits_ret|apply IH].
Qed.

Lemma emits_queryOpenRouter (P : event -> Prop) (messages : list message)
  (temperature : decimal) (retries : nat) :
  network_event P -> emits_only P (queryOpenRouter messages temperature retries).
Proof.
  intros HP w w' r E. unfold queryOpenRouter in E.
  destruct (api_key w) as [[|c key]|].
  - injection E as <- <-. exists []. rewrite app_nil_r. auto.
  - exact (emits_attempts _ _ HP _ _ _ E).
  - injection E as <- <-. exists []. rewrite app_nil_r. auto.
Qed.

Lemma emits_callCleanCode (P : event -> Prop) (v : value) :
  emits_only P (callCleanCode v).
Proof.
  apply emits_nothing. intros w.
  destruct v as [|[| | | | |]]; reflexivity.
Qed.

Lemma emits_architectAgent (P : event -> Prop) (prompt spec : jsstring) :
  network_event P -> P (EvLog ArchitectStarts) ->
  emits_only P (architectAgent prompt spec).
Proof.
  intros HP Hl. apply emits_bind; [apply emits_log, Hl|].
  intros _. apply emits_queryOpenRouter, HP.
Qed.

Lemma emits_auditorAgent (P : event -> Prop) (code spec : jsstring) :
  network_event P -> P (EvLog AuditorStarts) ->
  emits_only P (auditorAgent code spec).
Proof.
  intros HP Hl. apply emits_bind; [apply emits_log, Hl|].
  intros _. apply emits_queryOpenRouter, HP.
Qed.

Lemma emits_reviewerAgent (P : event -> Prop) (code rules : jsstring) :
  network_event P -> P (EvLog ReviewerStarts) ->
  emits_only P (reviewerAgent code rules).
Proof.
  intros HP Hl. apply emits_bind; [apply emits_log, Hl|].
  intros _. apply emits_queryOpenRouter, HP.
Qed.

Lemma emits_stage (P : event -> Prop) (agent : M value) :
  emits_only P agent -> emits_only P (stage agent).
Proof.
  intros H. apply emits_bind; [exact H|]. intros v. apply emits_callCleanCode.
Qed.

Lemma emits_stages (P : event -> Prop) (prompt spec review : jsstring) :
  network_event P ->
  P (EvLog ArchitectStarts) -> P (EvLog AuditorStarts) ->
  (review <> [] -> P (EvLog ReviewerStarts)) ->
  emits_only P (stages prompt spec review).
Proof.
  intros HP Ha Hb Hc. unfold stages.
  apply emits_bind; [apply emits_stage, emits_architectAgent; assumption|].
  intros x.
  apply emits_bind; [apply emits_stage, emits_auditorAgent; assumption|].
  intros y. destruct review as [|c review]; [apply emits_ret|].
  apply emits_stage, emits_reviewerAgent; [assumption|].
  apply Hc. discriminate.
Qed.

Lemma emits_loadReview (P : event -> Prop) (rp : option jsstring) :
  P (EvLog ReviewLoaded) -> emits_only P (loadReview rp).
Proof.
  intros H. destruct rp as [[|c p]|]; try apply emits_ret.
  cbn [loadReview]. apply emits_bind; [apply emits_readTextFile|].
  intros text. apply emits_bind; [apply emits_log, H|].
  intros _. apply emits_ret.
Qed.

(** What a stage yields, by what its agent yields. *)
Lemma stage_result (agent : M value) (w : world) :
  stage agent w =
  match agent w with
  | (w1, Return (Val (JStr str))) => (w1, Return (cleanCode str))
  | (w1, Return _) => (w1, Throw TypeError)
  | (w1, Throw e) => (w1, Throw e)
  end.
Proof.
  unfold stage, bind. destruct (agent w) as [w1 [[|[| | | | |]]|e]]; reflexivity.
Qed.

Lemma stage_returns (agent : M value) (w w1 : world) (code : jsstring) :
  stage agent w = (w1, Return code) <->
  exists str, agent w = (w1, Return (Val (JStr str))) /\ code = cleanCode str.
Proof.
  rewrite stage_result. split.
  - destruct (agent w) as [w' [[|[| | |str| |]]|e]]; try discriminate.
    intros [= <- <-]. exists str. split; reflexivity.
  - intros (str & -> & ->). reflexivity.
Qed.

End PipelineFacts.

(** * The pipeline: stages in order, the optional review, failures *)

Section PipelineClaims.
Import Sanitizer Js World Client Pipeline Examples.

Lemma stages_unfold (prompt spec review : jsstring) (w : world) :
  stages prompt spec review w =
  match stage (architectAgent prompt spec) w with
  | (w1, Return x) =>
      match stage (auditorAgent x spec) w1 with
      | (w2, Return y) =>
          match review with
          | _ :: _ => stage (reviewerAgent y review) w2
          | [] => (w2, Return y)
          end
      | (w2, Throw e) => (w2, Throw e)
      end
  | (w1, Throw e) => (w1, Throw e)
  end.
Proof.
  unfold stages, bind.
  destruct (stage (architectAgent prompt spec) w) as [w1 [x|e]]; [|reflexivity].
  destruct (stage (auditorAgent x spec) w1) as [w2 [y|e]]; [|reflexivity].
  destruct review; reflexivity.
Qed.





(** C9, as stated, fails: when the service answers 500 to every request
    the Architect stage throws, [main] reports the error, and the process
    ends with status 0, not with a non-zero one. *)
Lemma failed_run_exits_zero :
  let w := scripted broken project in
  snd (try_block greet (lit "spec.md") w) = Throw (ApiError 500)
  /\ snd (main greet w) = Completed
  /\ ~ (exit_status (snd (main greet w)) <> 0%Z).
Proof.
  intros w. repeat split; try (vm_compute; reflexivity).
  intros H. apply H. vm_compute. reflexivity.
Qed.

(** C9, amended: an exception thrown by a stage ends the stages at once, in
    the world of the throw, with that exception (no later stage runs, none
    is skipped over); [main] then adds nothing but the report of the error
    on the error console, no file has been written since the start, and
    [main] runs to its end, so that the process leaves status 0. *)
Theorem stage_failure_aborts (a : args) (sp spec review : jsstring)
  (w w0 w1 : world) (e : error) :
  present (api_key w) = true ->
  present (Some (userPrompt a)) = true ->
  specPath a = Some sp ->
  present (Some sp) = true ->
  files w sp = Some spec ->
  loadReview (reviewPath a) (emit (EvLog SpecLoaded) w) = (w0, Return review) ->
  stages (userPrompt a) spec review w0 = (w1, Throw e) ->
  main a w = (emit (EvConsoleError e) w1, Completed)
  /\ exit_status (snd (main a w)) = 0%Z
  /\ (exists evs, events w1 = events w ++ evs
        /\ forall path text, ~ In (EvWrite path text) evs)
  /\ (forall p s r u u1 e',
        stage (architectAgent p s) u = (u1, Throw e') ->
        stages p s r u = (u1, Throw e'))
  /\ (forall p s r u u1 u2 x e',
        stage (architectAgent p s) u = (u1, Return x) ->
        stage (auditorAgent x s) u1 = (u2, Throw e') ->
        stages p s r u = (u2, Throw e'))
  /\ (forall p s r u u1 u2 u3 x y e',
        r <> [] ->
        stage (architectAgent p s) u = (u1, Return x) ->
        stage (auditorAgent x s) u1 = (u2, Return y) ->
        stage (reviewerAgent y r) u2 = (u3, Throw e') ->
        stages p s r u = (u3, Throw e')).
Proof.
  intros Hkey Hprompt Hsp Hpresent Hfile Hreview Hstages.
  assert (try_block a sp w = (w1, Throw e)) as Htry.
  { unfold try_block, bind, readTextFile. rewrite Hfile.
    cbn [log]. rewrite Hreview, Hstages. reflexivity. }
  assert (main a w = (emit (EvConsoleError e) w1, Completed)) as Hmain.
  { unfold main. rewrite Hkey. cbn [negb]. rewrite Hsp.
    destruct (userPrompt a) as [|c0 prompt]; [discriminate|].
    destruct sp as [|c1 sp]; [discriminate|].
    rewrite Htry, Hkey. reflexivity. }
  split; [exact Hmain|]. split; [rewrite Hmain; reflexivity|].
  split; [|repeat split].
  - set (P := fun ev : event => forall path text, ev <> EvWrite path text).
    assert (network_event P) as HP by (split; intros ? ? ?; discriminate).
    assert (forall n, P (EvLog n)) as HL by (intros ? ? ?; discriminate).
    destruct (@emits_loadReview P (reviewPath a) (HL _) _ _ _ Hreview)
      as (ev1 & H1 & F1).
    destruct (@emits_stages P (userPrompt a) spec review HP (HL _) (HL _)
                (fun _ => HL _) _ _ _ Hstages) as (ev2 & H2 & F2).
    exists ([EvLog SpecLoaded] ++ ev1 ++ ev2).
    split.
    + rewrite H2, H1. cbn [emit events]. rewrite <- !app_assoc. reflexivity.
    + intros path text Hin.
      assert (Forall P ([EvLog SpecLoaded] ++ ev1 ++ ev2)) as Hall.
      { apply Forall_app. split; [constructor; [apply HL|constructor]|].
        apply Forall_app. split; assumption. }
      rewrite Forall_forall in Hall. exact (Hall _ Hin path text eq_refl).
  - intros p s r u u1 e' Ha. rewrite stages_unfold, Ha. reflexivity.
  - intros p s r u u1 u2 x e' Ha Hb. rewrite stages_unfold, Ha, Hb. reflexivity.
  - intros p s r u u1 u2 u3 x y e' Hr Ha Hb Hc.
    rewrite stages_unfold, Ha, Hb. destruct r; [congruence|exact Hc].
Qed.

Lemma stage_failure_aborts_witness :
  let w := scripted broken project in
  let w0 := emit (EvLog SpecLoaded) w in
  let w1 := fst (stages (userPrompt greet) (lit "must be named greet") [] w0) in
  main greet w = (emit (EvConsoleError (ApiError 500)) w1, Completed)
  /\ exit_status (snd (main greet w)) = 0%Z
  /\ requests (events w1) = 5.
Proof.
  intros w w0 w1.
  assert (stages (userPrompt greet) (lit "must be named greet") [] w0
          = (w1, Throw (ApiError 500))) as Hthrow by (vm_compute; reflexivity).
  destruct (@stage_failure_aborts greet (lit "spec.md")
              (lit "must be named greet") [] w w0 w1 (ApiError 500)
              eq_refl eq_refl eq_refl eq_refl eq_refl eq_refl Hthrow)
    as (H1 & H2 & _).
  split; [exact H1|]. split; [exact H2|]. vm_compute. reflexivity.
Defined.

End PipelineClaims.

(** * Further properties of the sanitizer *)

Section SanitizerMore.
Import Sanitizer Observations.

Lemma subseq_refl (s : jsstring) : subseq s s.
Proof. induction s; constructor; assumption. Qed.

Lemma subseq_trans (a b c : jsstring) : subseq a b -> subseq b c -> subseq a c.
Proof.
  intros Hab Hbc. revert a Hab.
  induction Hbc as [|x b c _ IH|x b c _ IH]; intros a Hab.
  - exact Hab.
  - inversion Hab; subst.
    + constructor. apply IH. assumption.
    + apply subseq_drop. apply IH. assumption.
  - apply subseq_drop. apply IH. exact Hab.
Qed.

Lemma subseq_suffix (pre s : jsstring) : subseq s (pre ++ s).
Proof.
  induction pre as [|c pre IH]; [apply subseq_refl|].
  apply subseq_drop. exact IH.
Qed.

Lemma subseq_prefix (s post : jsstring) : subseq s (s ++ post).
Proof.
  induction s as [|c s IH].
  - induction post; constructor; assumption.
  - apply subseq_keep. exact IH.
Qed.

Lemma subseq_length (a b : jsstring) : subseq a b -> length a <= length b.
Proof. induction 1; simpl; lia. Qed.

Lemma skip_word_suffix (s : jsstring) : exists w, s = w ++ skip_word s.
Proof.
  induction s as [|c s [w IH]]; [exists []; reflexivity|].
  simpl. destruct (is_word c).
  - exists (c :: w). simpl. f_equal. exact IH.
  - exists []. reflexivity.
Qed.

Lemma match_open_suffix (s rest : jsstring) :
  match_open s = Some rest -> exists pre, s = pre ++ rest.
Proof.
  destruct s as [|c1 [|c2 [|c3 s']]]; simpl; try discriminate.
  destruct (is_backtick c1 && is_backtick c2 && is_backtick c3); [|discriminate].
  destruct (skip_word_suffix s') as [w Hw].
  destruct (skip_word s') as [|c r]; [discriminate|].
  destruct (N.eqb c newline); [|discriminate].
  intros [= <-]. exists (c1 :: c2 :: c3 :: w ++ [c]).
  simpl. rewrite <- app_assoc. simpl. rewrite <- Hw. reflexivity.
Qed.

Lemma replace_open_subseq (s : jsstring) : subseq (replace_open s) s.
Proof.
  remember (length s) as n eqn:Hn. revert s Hn.
  induction n as [n IH] using lt_wf_ind. intros s Hn.
  destruct s as [|c s]; [constructor|].
  rewrite replace_open_cons.
  destruct (match_open (c :: s)) as [rest|] eqn:E.
  - pose proof (match_open_shorter _ E) as Hlt.
    destruct (match_open_suffix _ E) as [pre Hpre].
    apply subseq_trans with rest.
    + apply (IH (length rest)); [lia|reflexivity].
    + rewrite Hpre. apply subseq_suffix.
  - apply subseq_keep. apply (IH (length s)); [subst n; simpl; lia|reflexivity].
Qed.

Lemma replace_fence_subseq (s : jsstring) : subseq (replace_fence s) s.
Proof.
  induction s as [|rest IH|c s E IH] using fence_scan_ind.
  - constructor.
  - rewrite replace_fence_fence. apply subseq_trans with rest; [exact IH|].
    apply subseq_suffix.
  - rewrite (replace_fence_cons _ _ E). apply subseq_keep. exact IH.
Qed.

Lemma trim_subseq (s : jsstring) : subseq (trim s) s.
Proof.
  unfold trim. destruct (trimStart_suffix s) as [pre Hpre].
  destruct (trimEnd_prefix (trimStart s)) as [post Hpost].
  apply subseq_trans with (trimStart s).
  - rewrite Hpost at 2. apply subseq_prefix.
  - rewrite Hpre at 2. apply subseq_suffix.
Qed.

(** X1: [cleanCode] only deletes: its result is the input with some code
    units taken out, in the same order, so it is never longer. *)
Theorem cleanCode_only_deletes (s : jsstring) :
  subseq (cleanCode s) s /\ length (cleanCode s) <= length s.
Proof.
  assert (subseq (cleanCode s) s) as H.
  { unfold cleanCode.
    apply subseq_trans with (replace_fence (replace_open s)); [apply trim_subseq|].
    apply subseq_trans with (replace_open s);
      [apply replace_fence_subseq|apply replace_open_subseq]. }
  split; [exact H|apply subseq_length, H].
Qed.

Lemma trim_leading (s : jsstring) : leading_space (trim s) = false.
Proof.
  pose proof (trimStart_head (trim s)) as H. rewrite trimStart_trim in H.
  destruct (trim s); [reflexivity|exact H].
Qed.

Lemma trim_trailing (s : jsstring) : trailing_space (trim s) = false.
Proof.
  unfold trailing_space, trim, trimEnd. rewrite rev_involutive.
  pose proof (trimStart_head (rev (trimStart s))) as H.
  destruct (trimStart (rev (trimStart s))); [reflexivity|exact H].
Qed.

(** X2: the result of [cleanCode] neither starts nor ends with white
    space. *)
Theorem cleanCode_trimmed (s : jsstring) :
  leading_space (cleanCode s) = false /\ trailing_space (cleanCode s) = false.
Proof. split; [apply trim_leading|apply trim_trailing]. Qed.

Lemma space_no_backtick (ws : jsstring) :
  forallb is_space ws = true -> no_backtick ws = true.
Proof.
  induction ws as [|c ws IH]; [reflexivity|].
  cbn [forallb]. intros H. apply andb_prop in H as [Hc H].
  unfold no_backtick. cbn [forallb]. fold (no_backtick ws). rewrite (IH H).
  destruct (is_backtick c) eqn:E; [|reflexivity].
  apply is_backtick_eq in E. subst. discriminate.
Qed.

Lemma trimStart_spaces (ws s : jsstring) :
  forallb is_space ws = true -> trimStart (ws ++ s) = trimStart s.
Proof.
  induction ws as [|c ws IH]; [reflexivity|].
  cbn [forallb]. intros H. apply andb_prop in H as [Hc H].
  simpl. rewrite Hc. auto.
Qed.

(** X3: white space in front of the text does not matter: it changes
    neither what the two replacements remove nor the result. *)
Theorem cleanCode_leading_space (ws s : jsstring) :
  forallb is_space ws = true -> cleanCode (ws ++ s) = cleanCode s.
Proof.
  intros H. pose proof (space_no_backtick _ H) as Hb. unfold cleanCode.
  rewrite (replace_open_skip _ _ Hb), (replace_fence_skip _ _ Hb).
  unfold trim. rewrite (trimStart_spaces _ _ H). reflexivity.
Qed.

Lemma cleanCode_leading_space_witness :
  cleanCode (lit "  " ++ [newline] ++ lit "```js" ++ [newline] ++ lit "x```")
  = cleanCode (lit "```js" ++ [newline] ++ lit "x```").
Proof.
  apply (cleanCode_leading_space (lit "  " ++ [newline])). reflexivity.
Defined.

Lemma skip_word_stops (w rest : jsstring) (x : N) :
  forallb is_word w = true -> is_word x = false ->
  skip_word (w ++ x :: rest) = x :: rest.
Proof.
  intros Hw Hx. rewrite (skip_word_app _ _ Hw). simpl. rewrite Hx. reflexivity.
Qed.

(** X4: a tag that is not made of word characters only is no opening
    marker.  When the line after the three backticks holds a code unit that
    is neither a word character nor the newline (the [+] of [c++], the
    carriage return of a CRLF line end), only the delimiters are removed
    and the tag stays in the result. *)
Theorem tag_with_symbol_stays (w rest interior : jsstring) (x : N) :
  forallb is_word w = true ->
  is_word x = false ->
  x <> newline ->
  no_backtick (w ++ x :: rest) = true ->
  has_fence interior = false ->
  cleanCode (fence ++ (w ++ x :: rest) ++ newline :: interior ++ fence)
  = trim ((w ++ x :: rest) ++ newline :: interior).
Proof.
  intros Hw Hx Hnl Hb Hint. unfold cleanCode.
  set (lang := w ++ x :: rest) in *.
  assert (match_open (fence ++ lang ++ newline :: interior ++ fence) = None) as Hm.
  { unfold lang. rewrite <- app_assoc. cbn [fence app match_open].
    change (is_backtick backtick) with true. cbn [andb].
    rewrite (skip_word_stops _ _ _ Hw Hx).
    destruct (N.eqb_spec x newline); [contradiction|reflexivity]. }
  assert (leading_backtick (lang ++ newline :: interior ++ fence) = false) as Hl.
  { unfold lang in *. destruct w as [|c w].
    - apply no_backtick_cons in Hb as [Hb _]. exact Hb.
    - apply no_backtick_cons in Hb as [Hb _]. exact Hb. }
  rewrite (replace_open_bare_fence _ Hm Hl).
  rewrite (replace_open_skip _ _ Hb).
  assert (replace_open (newline :: interior ++ fence) = newline :: interior ++ fence) as Hn.
  { change (newline :: interior ++ fence) with ([newline] ++ interior ++ fence).
    rewrite (replace_open_skip [newline] (interior ++ fence) eq_refl).
    rewrite (replace_open_before_fence _ Hint). reflexivity. }
  rewrite Hn, replace_fence_fence, (replace_fence_skip _ _ Hb).
  change (newline :: interior ++ fence) with ([newline] ++ interior ++ fence).
  rewrite (replace_fence_skip [newline] _ eq_refl).
  rewrite (replace_fence_before_fence _ Hint). reflexivity.
Qed.

Lemma tag_with_symbol_stays_witness :
  cleanCode (fence ++ (lit "ts" ++ [13%N]) ++ newline
             :: (lit "let x;" ++ [13%N; newline]) ++ fence)
  = lit "ts" ++ [13%N; newline] ++ lit "let x;"
  /\ cleanCode (fence ++ (lit "c" ++ 43%N :: lit "+") ++ newline
                :: (lit "int x;" ++ [newline]) ++ fence)
     = lit "c++" ++ [newline] ++ lit "int x;".
Proof.
  split.
  - rewrite (@tag_with_symbol_stays (lit "ts") [] (lit "let x;" ++ [13%N; newline])
               13%N eq_refl eq_refl ltac:(discriminate) eq_refl eq_refl).
    vm_compute. reflexivity.
  - rewrite (@tag_with_symbol_stays (lit "c") (lit "+") (lit "int x;" ++ [newline])
               43%N eq_refl eq_refl ltac:(discriminate) eq_refl eq_refl).
    vm_compute. reflexivity.
Defined.

End SanitizerMore.

(** * Further properties of the client *)

Section ClientMore.
Import Js World Client Observations Examples Scenarios.

Lemma rate_limited_429 (o : outcome) :
  rate_limited o = true -> exists body, o = Response 429 body.
Proof.
  destruct o as [|status body]; [discriminate|].
  cbn. intros H. apply Z.eqb_eq in H. subst. exists body. reflexivity.
Qed.

(** [n] attempts in a row that are retried, none the last of the budget. *)
Lemma attempts_retry_trace (req : request) (retries : nat) :
  forall n remaining attempt w,
    n + attempt <= retries ->
    (forall i, i < n -> retryable (server w (i + fetches w) req) = true) ->
    attempts req retries (n + remaining) attempt w =
    attempts req retries remaining (n + attempt)
             (advance (retry_trace (server w) req (fetches w) attempt n) n w).
Proof.
  induction n as [|n IH]; intros remaining attempt w Hle H.
  - cbn. rewrite advance_nil. reflexivity.
  - pose proof (H 0 (Nat.lt_0_succ n)) as H0. cbn [Nat.add] in H0.
    change (S n + remaining) with (S (n + remaining)).
    rewrite attempts_S. cbn [retry_trace]. unfold retry_events.
    unfold retryable in H0.
    destruct (rate_limited (server w (fetches w) req)) eqn:Erl.
    + destruct (rate_limited_429 _ Erl) as [body Hb].
      rewrite (attempt_rate_limited _ _ _ _ Hb).
      rewrite IH.
      * rewrite advance_advance, Nat.add_succ_r. reflexivity.
      * lia.
      * intros i Hi. cbn. rewrite Nat.add_succ_r. apply (H (S i)). lia.
    + cbn [orb] in H0.
      destruct (failure (server w (fetches w) req)) as [e|] eqn:E; [|discriminate].
      rewrite (attempt_throws _ _ _ _ E).
      assert (Nat.eqb attempt retries = false) as -> by (apply Nat.eqb_neq; lia).
      rewrite IH.
      * rewrite advance_advance, Nat.add_succ_r. reflexivity.
      * lia.
      * intros i Hi. cbn. rewrite Nat.add_succ_r. apply (H (S i)). lia.
Qed.

(** X5: the first success wins.  With a credential, if the k-th answer
    (k <= retries) is a success from which the content [v] is read, and
    every earlier answer is a rate limit or an error, the client returns
    [v] after k requests, whatever mix of rate limits and errors came
    before; [v] is whatever the content field holds, string or not. *)
Theorem first_success_returns (w : world) (key : jsstring)
  (messages : list message) (temperature : decimal) (retries k : nat)
  (status : Z) (data : json) (v : value) :
  api_key w = Some key ->
  present (Some key) = true ->
  1 <= k <= retries ->
  (forall i, i < k - 1 ->
     retryable (server w (i + fetches w)
                  (request_for w key messages temperature)) = true) ->
  server w (k - 1 + fetches w) (request_for w key messages temperature)
    = Response status (Some data) ->
  ok status = true ->
  first_choice_content data = Return v ->
  let req := request_for w key messages temperature in
  queryOpenRouter messages temperature retries w
  = (advance (retry_trace (server w) req (fetches w) 1 (k - 1) ++ [EvFetch req]) k w,
     Return v).
Proof.
  intros Hkey Hpresent Hk Hretry Hlast Hok Hv req.
  unfold queryOpenRouter. rewrite Hkey.
  destruct key as [|c0 key]; [discriminate|]. fold req.
  replace retries with ((k - 1) + S (retries - k)) at 2 by lia.
  rewrite (@attempts_retry_trace req retries (k - 1) _ 1 w); [|lia|exact Hretry].
  rewrite attempts_S.
  rewrite (@attempt_success req retries _
             (advance (retry_trace (server w) req (fetches w) 1 (k - 1)) (k - 1) w)
             status data v Hlast Hok Hv).
  rewrite advance_one. replace (S (k - 1)) with k by lia. reflexivity.
Qed.

Lemma first_success_returns_witness :
  let w := scripted flaky no_files in
  let req := request_for w (lit "sk-test") hello {| digits := 7; scale := 1 |} in
  queryOpenRouter hello {| digits := 7; scale := 1 |} 5 w
  = (advance [EvFetch req; EvSleep 1000; EvFetch req; EvSleep 4000; EvFetch req] 3 w,
     Return (Val (JNum (S754_finite false 5 0)))).
Proof.
  intros w req.
  apply (@first_success_returns w (lit "sk-test") hello
           {| digits := 7; scale := 1 |} 5 3 201%Z
           (JObj [(lit "choices",
                   JArr [JObj [(lit "message",
                                JObj [(lit "content",
                                       JNum (S754_finite false 5 0))])]])])
           (Val (JNum (S754_finite false 5 0)))); try reflexivity.
  - lia.
  - intros i Hi. destruct i as [|[|i]]; [reflexivity|reflexivity|simpl in Hi; lia].
Defined.

(** X6: when no attempt succeeds, the last one decides.  With a credential
    and every answer but the last a rate limit or an error: an error on the
    last attempt is thrown to the caller; a rate limit on the last attempt
    is slept out and the empty string is returned. *)
Theorem last_attempt_decides (w : world) (key : jsstring)
  (messages : list message) (temperature : decimal) (retries : nat) :
  api_key w = Some key ->
  present (Some key) = true ->
  1 <= retries ->
  (forall i, i < retries - 1 ->
     retryable (server w (i + fetches w)
                  (request_for w key messages temperature)) = true) ->
  let req := request_for w key messages temperature in
  let last := server w (retries - 1 + fetches w) req in
  let before := retry_trace (server w) req (fetches w) 1 (retries - 1) in
  (forall e, failure last = Some e ->
     queryOpenRouter messages temperature retries w
     = (advance (before ++ [EvFetch req]) retries w, Throw e))
  /\ (rate_limited last = true ->
      queryOpenRouter messages temperature retries w
      = (advance (before ++ [EvFetch req; EvSleep (2000 * Z.of_nat retries)])
                 retries w,
         Return empty_string)).
Proof.
  intros Hkey Hpresent Hr Hretry req last before.
  assert (queryOpenRouter messages temperature retries w
          = attempts req retries 1 retries (advance before (retries - 1) w)) as Hq.
  { unfold queryOpenRouter. rewrite Hkey.
    destruct key as [|c0 key]; [discriminate|]. fold req.
    replace retries with ((retries - 1) + 1) at 2 by lia.
    rewrite (@attempts_retry_trace req retries (retries - 1) 1 1 w);
      [|lia|exact Hretry].
    replace (retries - 1 + 1) with retries by lia. reflexivity. }
  split.
  - intros e He. rewrite Hq, attempts_S.
    rewrite (@attempt_throws req retries retries
               (advance before (retries - 1) w) e He).
    rewrite Nat.eqb_refl, advance_one.
    replace (S (retries - 1)) with retries by lia. reflexivity.
  - intros Hrl. destruct (rate_limited_429 _ Hrl) as [body Hb].
    rewrite Hq, attempts_S.
    rewrite (@attempt_rate_limited req retries retries
               (advance before (retries - 1) w) body Hb).
    cbn [attempts ret]. rewrite advance_one.
    replace (S (retries - 1)) with retries by lia. reflexivity.
Qed.

Lemma last_attempt_decides_witness :
  let w := scripted worsening no_files in
  let req := request_for w (lit "sk-test") hello {| digits := 2; scale := 1 |} in
  queryOpenRouter hello {| digits := 2; scale := 1 |} 3 w
  = (advance [EvFetch req; EvSleep 1000; EvFetch req; EvSleep 1000;
              EvFetch req; EvSleep 6000] 3 w,
     Return empty_string).
Proof.
  intros w req.
  refine (proj2 (@last_attempt_decides w (lit "sk-test") hello
                   {| digits := 2; scale := 1 |} 3 eq_refl eq_refl _ _) eq_refl).
  - lia.
  - intros i Hi. destruct i as [|[|i]]; [reflexivity|reflexivity|simpl in Hi; lia].
Defined.

(** ** Budgets *)

Lemma weight_app (f : event -> nat) (a b : list event) :
  weight f (a ++ b) = weight f a + weight f b.
Proof. unfold weight. rewrite map_app, list_sum_app. reflexivity. Qed.

Lemma weight_cons (f : event -> nat) (e : event) (l : list event) :
  weight f (e :: l) = f e + weight f l.
Proof. reflexivity. Qed.

Lemma weight_nil (f : event -> nat) : weight f [] = 0.
Proof. reflexivity. Qed.

Lemma within_ret {A : Type} (f : event -> nat) (a : A) : emits_within f 0 (ret a).
Proof.
  intros w w' r [= <- <-]. exists []. rewrite app_nil_r. split; [reflexivity|].
  rewrite weight_nil. lia.
Qed.

Lemma within_weaken {A : Type} (f : event -> nat) (n n' : nat) (m : M A) :
  n <= n' -> emits_within f n m -> emits_within f n' m.
Proof.
  intros Hle H w w' r E. destruct (H _ _ _ E) as (evs & Hev & Hw).
  exists evs. split; [exact Hev|lia].
Qed.

Lemma within_bind {A B : Type} (f : event -> nat) (n1 n2 : nat) (m : M A)
  (k : A -> M B) :
  emits_within f n1 m -> (forall a, emits_within f n2 (k a)) ->
  emits_within f (n1 + n2) (bind m k).
Proof.
  intros Hm Hk w w' r E. unfold bind in E.
  destruct (m w) as [w1 [a|e]] eqn:E1.
  - destruct (Hm _ _ _ E1) as (ev1 & H1 & F1).
    destruct (Hk a _ _ _ E) as (ev2 & H2 & F2).
    exists (ev1 ++ ev2). rewrite H2, H1, app_assoc. split; [reflexivity|].
    rewrite weight_app. lia.
  - injection E as <- <-. destruct (Hm _ _ _ E1) as (ev1 & H1 & F1).
    exists ev1. split; [exact H1|lia].
Qed.

(** What one attempt adds to the log: its request, then at most one sleep,
    a back-off or the second before a retry. *)
Lemma attempt_body_log (req : request) (retries attempt : nat)
  (w w' : world) (r : result (option value)) :
  attempt_body req retries attempt w = (w', r) ->
  exists tail,
    events w' = events w ++ EvFetch req :: tail
    /\ (tail = [] \/ tail = [EvSleep (2000 * Z.of_nat attempt)]
        \/ tail = [EvSleep 1000]).
Proof.
  destruct (rate_limited (server w (fetches w) req)) eqn:Erl.
  - destruct (rate_limited_429 _ Erl) as [body Hb].
    rewrite (attempt_rate_limited _ _ _ _ Hb). intros [= <- <-].
    eexists. split; [reflexivity|]. auto.
  - destruct (failure (server w (fetches w) req)) as [e|] eqn:E.
    + rewrite (attempt_throws _ _ _ _ E).
      destruct (Nat.eqb attempt retries); intros [= <- <-];
        (eexists; split; [reflexivity|]); auto.
    + destruct (server w (fetches w) req) as [|status body] eqn:Es;
        [discriminate|].
      cbn in Erl. cbn in E. rewrite Erl in E.
      destruct (ok status) eqn:Eok; [|discriminate]. cbn in E.
      destruct body as [data|]; [|discriminate].
      destruct (first_choice_content data) as [v|e] eqn:Ev; [|discriminate].
      rewrite (@attempt_success req retries attempt w status data v Es Eok Ev).
      intros [= <- <-]. eexists. split; [reflexivity|]. auto.
Qed.

Lemma attempts_requests (req : request) (retries : nat) :
  forall remaining attempt,
    emits_within request_count remaining (attempts req retries remaining attempt).
Proof.
  induction remaining as [|n IH]; intros attempt; cbn [attempts].
  - apply within_ret.
  - change (S n) with (1 + n). apply within_bind.
    + intros w w' r E. destruct (attempt_body_log _ _ _ _ E) as (tail & Hev & Ht).
      eexists. split; [exact Hev|].
      destruct Ht as [-> | [-> | ->]];
        rewrite ?weight_cons, weight_nil; cbn [request_count]; lia.
    + intros [v|]; [|apply IH].
      apply (within_weaken (n := 0)); [lia|apply within_ret].
Qed.

Lemma attempts_sleep (req : request) (retries : nat) :
  forall remaining attempt,
    1 <= attempt ->
    emits_within sleep_ms (budget attempt remaining)
                 (attempts req retries remaining attempt).
Proof.
  induction remaining as [|n IH]; intros attempt Ha; cbn [attempts budget].
  - apply within_ret.
  - apply within_bind.
    + intros w w' r E. destruct (attempt_body_log _ _ _ _ E) as (tail & Hev & Ht).
      eexists. split; [exact Hev|].
      destruct Ht as [-> | [-> | ->]];
        rewrite ?weight_cons, weight_nil; cbn [sleep_ms]; lia.
    + intros [v|]; [|apply IH; lia].
      apply (within_weaken (n := 0)); [lia|apply within_ret].
Qed.

Lemma budget_closed (n a : nat) :
  budget a n = 2000 * a * n + 1000 * n * (n - 1).
Proof.
  revert a. induction n as [|n IH]; intros a; cbn [budget]; [lia|].
  rewrite IH. destruct n as [|n]; [lia|].
  replace (S (S n) - 1) with (S n) by lia. replace (S n - 1) with n by lia. nia.
Qed.

(** X7: one call of the client sends at most [retries] requests and sleeps
    at most 1000 * retries * (retries + 1) milliseconds in all, whatever the
    service answers. *)
Theorem client_budget (messages : list message) (temperature : decimal)
  (retries : nat) (w w' : world) (r : result value) :
  queryOpenRouter messages temperature retries w = (w', r) ->
  exists evs,
    events w' = events w ++ evs
    /\ weight request_count evs <= retries
    /\ weight sleep_ms evs <= 1000 * retries * (retries + 1).
Proof.
  unfold queryOpenRouter.
  destruct (api_key w) as [[|c key]|];
    try (intros [= <- <-]; exists []; rewrite app_nil_r, !weight_nil;
         repeat split; lia).
  intros E.
  destruct (@attempts_requests _ retries retries 1 _ _ _ E) as (ev1 & H1 & B1).
  destruct (@attempts_sleep _ retries retries 1 (le_n 1) _ _ _ E) as (ev2 & H2 & B2).
  assert (ev2 = ev1) as -> by (rewrite H1 in H2; apply app_inv_head in H2; auto).
  exists ev1. repeat split; [exact H1|exact B1|].
  rewrite budget_closed in B2. nia.
Qed.

Lemma client_budget_witness :
  let w := scripted always_busy no_files in
  exists evs,
    events (fst (queryOpenRouter hello {| digits := 2; scale := 1 |} 5 w))
    = events w ++ evs
    /\ weight request_count evs <= 5
    /\ weight sleep_ms evs <= 1000 * 5 * (5 + 1).
Proof.
  intros w.
  apply (@client_budget hello {| digits := 2; scale := 1 |} 5 w _
           (snd (queryOpenRouter hello {| digits := 2; scale := 1 |} 5 w))).
  vm_compute. reflexivity.
Defined.

(** ** Reading the content *)

(** X8: reading the content of a parsed answer throws exactly when the
    answer is [null] or has no [choices] or a [null] one, and what it throws
    is a TypeError; every other answer, of whatever shape, yields a value. *)
Theorem content_throws_iff (data : json) (e : error) :
  first_choice_content data = Throw e <->
  e = TypeError
  /\ (data = JNull
      \/ get (Val data) (lit "choices") = Return Undefined
      \/ get (Val data) (lit "choices") = Return (Val JNull)).
Proof.
  unfold first_choice_content. split.
  - destruct data as [| | | | |fields]; cbn [get get0];
      try discriminate; try (intros [= <-]; auto).
    destruct (lookup (lit "choices") fields) as [|[| | | | |]]; cbn [get0];
      try discriminate; intros [= <-]; auto.
  - intros [-> [-> | [H | H]]]; [reflexivity| |]; rewrite H; reflexivity.
Qed.

(** X9: what the client reads from an answer of the expected shape is its
    content field when that is truthy, and the empty string when it is
    falsy, that is when it is missing, [null], [false], a zero, NaN or the
    empty string; so what is read from any answer is never falsy, unless it
    is the empty string. *)
Theorem content_truthy_or_empty (data : json) (c : value) :
  content_field data = Some c ->
  first_choice_content data = Return (if truthy c then c else empty_string)
  /\ (truthy c = false <->
        c = Undefined \/ c = Val JNull \/ c = Val (JBool false)
        \/ (exists s, c = Val (JNum (S754_zero s)))
        \/ c = Val (JNum S754_nan) \/ c = Val (JStr []))
  /\ (forall body v, first_choice_content body = Return v ->
        truthy v = true \/ v = empty_string).
Proof.
  intros Hc. split; [|split].
  - unfold content_field in Hc. unfold first_choice_content.
    destruct data as [| | | | |fields]; try discriminate. cbn [get].
    destruct (lookup (lit "choices") fields) as [|[| | | |[|first rest]|]];
      try discriminate.
    destruct first as [| | | | |first]; try discriminate.
    unfold opt_get. cbn [get0 get].
    destruct (lookup (lit "message") first) as [|[| | | | |msg]]; try discriminate.
    cbn [get]. injection Hc as <-. reflexivity.
  - split.
    + destruct c as [|[|b|x|str|items|fields]]; try destruct b; try destruct x;
        try destruct str; cbn; try discriminate; intros _; eauto 10.
    + intros [-> | [-> | [-> | [[s ->] | [-> | ->]]]]]; reflexivity.
  - intros body v. unfold first_choice_content.
    destruct (get (Val body) (lit "choices")) as [choices|]; [|discriminate].
    destruct (get0 choices) as [first|]; [|discriminate].
    intros [= <-]. unfold or_else.
    destruct (truthy (opt_get (opt_get first (lit "message")) (lit "content")))
      eqn:E; auto.
Qed.

Lemma content_truthy_or_empty_witness :
  first_choice_content
    (JObj [(lit "choices",
            JArr [JObj [(lit "message", JObj [(lit "content", JBool false)])]])])
  = Return (Val (JStr []))
  /\ first_choice_content
       (JObj [(lit "choices",
               JArr [JObj [(lit "message",
                            JObj [(lit "content", JNum (S754_finite false 5 0))])]])])
     = Return (Val (JNum (S754_finite false 5 0))).
Proof.
  split.
  - exact (proj1 (@content_truthy_or_empty
                    (JObj [(lit "choices",
                            JArr [JObj [(lit "message",
                                         JObj [(lit "content", JBool false)])]])])
                    (Val (JBool false)) eq_refl)).
  - exact (proj1 (@content_truthy_or_empty
                    (JObj [(lit "choices",
                            JArr [JObj [(lit "message",
                                         JObj [(lit "content",
                                                JNum (S754_finite false 5 0))])]])])
                    (Val (JNum (S754_finite false 5 0))) eq_refl)).
Defined.

End ClientMore.

(** * Further properties of the pipeline *)

Section PipelineMore.
Import Sanitizer Js World Client Pipeline Observations Examples Scenarios.

Lemma present_typed (w : world) :
  present (Some (match typed_key w with Some k => k | None => [] end))
  = present (typed_key w).
Proof. destruct (typed_key w) as [[|c k]|]; reflexivity. Qed.

Lemma exits_zero (w : world) (X : world * termination) (P : Prop) :
  exit_status (snd X) = 0%Z -> ~ P ->
  (exit_status (snd X) = 1%Z <-> P)
  /\ (exit_status (snd X) = 1%Z -> events (fst X) = events w)
  /\ (exit_status (snd X) = 1%Z \/ exit_status (snd X) = 0%Z).
Proof.
  intros H0 HP. rewrite H0. repeat split; try discriminate; auto.
  intros H. contradiction.
Qed.

(** X10: the process ends with status 1 exactly when there is no credential
    in the environment and none is typed at the prompt, and then nothing is
    logged, requested, read or written; in every other case, failed runs
    included, the status is 0. *)
Theorem main_exit_status (a : args) (w : world) :
  (exit_status (snd (main a w)) = 1%Z <->
     present (api_key w) = false /\ present (typed_key w) = false)
  /\ (exit_status (snd (main a w)) = 1%Z -> events (fst (main a w)) = events w)
  /\ (exit_status (snd (main a w)) = 1%Z \/ exit_status (snd (main a w)) = 0%Z).
Proof.
  unfold main. destruct (present (api_key w)) eqn:Ek.
  - rewrite Ek. cbn [negb].
    destruct (userPrompt a) as [|c0 p];
      [apply exits_zero; [reflexivity|intros [H _]; discriminate]|].
    destruct (specPath a) as [[|c1 sp]|];
      try (apply exits_zero; [reflexivity|intros [H _]; discriminate]).
    destruct (try_block a (c1 :: sp) w) as [w2 [u|e]];
      apply exits_zero; try reflexivity; intros [H _]; discriminate.
  - cbn [api_key set_api_key]. rewrite present_typed.
    destruct (present (typed_key w)) eqn:Et; cbn [negb].
    + destruct (userPrompt a) as [|c0 p];
        [apply exits_zero; [reflexivity|intros [_ H]; discriminate]|].
      destruct (specPath a) as [[|c1 sp]|];
        try (apply exits_zero; [reflexivity|intros [_ H]; discriminate]).
      match goal with
      | |- context [try_block ?x ?y ?z] =>
          destruct (try_block x y z) as [w2 [u|e]];
            apply exits_zero; try reflexivity; intros [_ H]; discriminate
      end.
    + cbn. repeat split; auto.
Qed.

(** X11: with a credential but without a prompt or without a [--spec] path,
    [main] prints the banner and the usage line and exits with status 0: no
    file is read, no request is sent. *)
Theorem main_usage (a : args) (w : world) :
  present (api_key w) = true ->
  userPrompt a = [] \/ present (specPath a) = false ->
  main a w = (emit (EvLog Usage) (emit (EvLog Banner) w), Exit 0).
Proof.
  intros Hk H. unfold main. rewrite Hk, Hk. cbn [negb].
  destruct H as [-> | H]; [reflexivity|].
  destruct (specPath a) as [[|c sp]|]; try discriminate;
    destruct (userPrompt a); reflexivity.
Qed.

Lemma main_usage_witness :
  let w := scripted fenced project in
  let a := {| userPrompt := lit "write greet"; specPath := None;
              reviewPath := Some (lit "rules.md"); out := None |} in
  main a w = (emit (EvLog Usage) (emit (EvLog Banner) w), Exit 0).
Proof.
  intros w a. apply main_usage; [reflexivity|right; reflexivity].
Defined.

(** X12: the files are read before anything is asked of the service.  With
    a credential, a prompt and a spec path: if the specification cannot be
    read, or it can but the review rules named on the command line cannot,
    [main] reports the read error and ends; no request has been sent and
    nothing is written. *)
Theorem unreadable_input_no_request (a : args) (sp : jsstring) (w : world) :
  present (api_key w) = true ->
  present (Some (userPrompt a)) = true ->
  specPath a = Some sp ->
  present (Some sp) = true ->
  (files w sp = None ->
   main a w = (emit (EvConsoleError (IOError sp)) w, Completed))
  /\ (forall spec rp,
        files w sp = Some spec ->
        reviewPath a = Some rp -> present (Some rp) = true ->
        files w rp = None ->
        main a w = (emit (EvConsoleError (IOError rp)) (emit (EvLog SpecLoaded) w),
                    Completed)).
Proof.
  intros Hk Hp Hsp Hpr. unfold main. rewrite Hk, Hk, Hsp. cbn [negb].
  destruct (userPrompt a) as [|c0 p]; [discriminate|].
  destruct sp as [|c1 sp]; [discriminate|]. split.
  - intros Hf. unfold try_block, bind, readTextFile. rewrite Hf. reflexivity.
  - intros spec rp Hf Hrp Hprp Hfr.
    unfold try_block, bind, readTextFile. rewrite Hf, Hrp.
    destruct rp as [|c2 rp]; [discriminate|].
    cbn [log loadReview]. unfold bind, readTextFile. cbn [files emit].
    rewrite Hfr. reflexivity.
Qed.

Lemma unreadable_input_no_request_witness :
  let w := scripted fenced project in
  let a := {| userPrompt := lit "write greet"; specPath := Some (lit "idea.md");
              reviewPath := None; out := None |} in
  let b := {| userPrompt := lit "write greet"; specPath := Some (lit "spec.md");
              reviewPath := Some (lit "style.md"); out := None |} in
  main a w = (emit (EvConsoleError (IOError (lit "idea.md"))) w, Completed)
  /\ main b w = (emit (EvConsoleError (IOError (lit "style.md")))
                      (emit (EvLog SpecLoaded) w), Completed).
Proof.
  intros w a b. split.
  - apply (proj1 (@unreadable_input_no_request a (lit "idea.md") w
                    eq_refl eq_refl eq_refl eq_refl)). reflexivity.
  - apply (proj2 (@unreadable_input_no_request b (lit "spec.md") w
                    eq_refl eq_refl eq_refl eq_refl)
             (lit "must be named greet") (lit "style.md"));
      reflexivity.
Defined.

(** X13: an answer whose content is not text stops the pipeline.  If an
    agent returns a value that is not a string (the service sent a number,
    an array, an object or [true] as content), the call of [cleanCode] on it
    throws a TypeError: the stages end there and no later agent is called. *)
Theorem non_text_answer_aborts (prompt spec review : jsstring)
  (w w1 : world) (v : value) :
  architectAgent prompt spec w = (w1, Return v) ->
  (forall str, v <> Val (JStr str)) ->
  stages prompt spec review w = (w1, Throw TypeError).
Proof.
  intros Ha Hv. rewrite stages_unfold, stage_result, Ha.
  destruct v as [|[| | |str| |]]; try reflexivity.
  exfalso. exact (Hv str eq_refl).
Qed.

Lemma non_text_answer_aborts_witness :
  let w := scripted numeric no_files in
  let p := lit "write greet" in
  let s := lit "must be named greet" in
  stages p s (lit "use arrow functions") w
  = (fst (architectAgent p s w), Throw TypeError)
  /\ weight request_count (events (fst (architectAgent p s w))) = 1.
Proof.
  intros w p s. split; [|vm_compute; reflexivity].
  apply (@non_text_answer_aborts p s (lit "use arrow functions") w _
           (Val (JNum (S754_finite false 5 0)))).
  - vm_compute. reflexivity.
  - intros str. discriminate.
Defined.

(** ** What a run writes *)

Lemma stages_returns_clean (prompt spec review : jsstring) (w w' : world)
  (code : jsstring) :
  stages prompt spec review w = (w', Return code) ->
  exists str, code = cleanCode str.
Proof.
  rewrite stages_unfold.
  destruct (stage (architectAgent prompt spec) w) as [w1 [x|e]]; [|discriminate].
  destruct (stage (auditorAgent x spec) w1) as [w2 [y|e]] eqn:Eb; [|discriminate].
  destruct review as [|c review].
  - intros [= <- <-]. apply stage_returns in Eb as (str & _ & ->). eauto.
  - intros H. apply stage_returns in H as (str & _ & ->). eauto.
Qed.

Lemma quiet_stages (prompt spec review : jsstring) :
  emits_only quiet_event (stages prompt spec review).
Proof. apply emits_stages; repeat split; exact I. Qed.

(** The log of the [try] block: events that are neither writes nor the
    closing line, then, on success only, the write and the closing line. *)
Lemma try_block_log (a : args) (sp : jsstring) (w w' : world) (r : result unit) :
  try_block a sp w = (w', r) ->
  exists evs0 tail,
    events w' = events w ++ evs0 ++ tail
    /\ Forall quiet_event evs0
    /\ ((tail = [] /\ exists e, r = Throw e)
        \/ (exists str,
              tail = [EvWrite (outPath a) (cleanCode str);
                      EvLog (PipelineDone (outPath a))]
              /\ r = Return tt)).
Proof.
  unfold try_block, bind, readTextFile.
  destruct (files w sp) as [spec|].
  2:{ intros [= <- <-]. exists [], []. rewrite app_nil_r. repeat split; eauto. }
  cbn [log].
  destruct (loadReview (reviewPath a) (emit (EvLog SpecLoaded) w))
    as [w0 [review|e]] eqn:El;
    destruct (@emits_loadReview quiet_event (reviewPath a) I _ _ _ El)
      as (ev1 & H1 & F1); cbn [emit events] in H1.
  2:{ intros [= <- <-]. exists ([EvLog SpecLoaded] ++ ev1), [].
      rewrite H1, app_nil_r, <- app_assoc. repeat split; eauto.
      apply Forall_app. split; [repeat constructor|exact F1]. }
  destruct (stages (userPrompt a) spec review w0) as [w1 [code|e]] eqn:Es;
    destruct (quiet_stages _ _ _ _ Es) as (ev2 & H2 & F2).
  2:{ intros [= <- <-]. exists ([EvLog SpecLoaded] ++ ev1 ++ ev2), [].
      rewrite H2, H1, app_nil_r, <- !app_assoc. repeat split; eauto.
      apply Forall_app. split; [repeat constructor|].
      apply Forall_app. split; assumption. }
  destruct (stages_returns_clean _ _ _ _ Es) as [str ->].
  unfold writeTextFile. destruct (writable w1 (outPath a)).
  - intros [= <- <-]. exists ([EvLog SpecLoaded] ++ ev1 ++ ev2). eexists.
    split; [|split; [|right; exists str; split; reflexivity]].
    + cbn [emit events]. rewrite H2, H1, <- !app_assoc. reflexivity.
    + apply Forall_app. split; [repeat constructor|].
      apply Forall_app. split; assumption.
  - intros [= <- <-]. exists ([EvLog SpecLoaded] ++ ev1 ++ ev2), [].
    rewrite H2, H1, app_nil_r, <- !app_assoc. repeat split; eauto.
    apply Forall_app. split; [repeat constructor|].
    apply Forall_app. split; assumption.
Qed.

Lemma quiet_weight (evs : list event) :
  Forall quiet_event evs -> weight write_count evs = 0.
Proof.
  induction 1 as [|e evs He _ IH]; [reflexivity|].
  rewrite weight_cons, IH. destruct e; try reflexivity. contradiction.
Qed.

Lemma quiet_no_write (evs : list event) (p text : jsstring) :
  Forall quiet_event evs -> ~ In (EvWrite p text) evs.
Proof. intros H Hin. rewrite Forall_forall in H. exact (H _ Hin). Qed.

Lemma quiet_no_done (evs : list event) (p : jsstring) :
  Forall quiet_event evs -> ~ In (EvLog (PipelineDone p)) evs.
Proof. intros H Hin. rewrite Forall_forall in H. exact (H _ Hin). Qed.

(** The statement of X14 for a log of the shape [try_block_log] gives. *)
Lemma shaped_log (a : args) (evs0 tail : list event) :
  Forall quiet_event evs0 ->
  tail = [] \/ (exists str, tail = [EvWrite (outPath a) (cleanCode str);
                                    EvLog (PipelineDone (outPath a))]) ->
  weight write_count (evs0 ++ tail) <= 1
  /\ (forall p text, In (EvWrite p text) (evs0 ++ tail) ->
        p = outPath a /\ has_fence text = false
        /\ leading_space text = false /\ trailing_space text = false
        /\ In (EvLog (PipelineDone p)) (evs0 ++ tail))
  /\ (forall p, In (EvLog (PipelineDone p)) (evs0 ++ tail) ->
        exists text, In (EvWrite p text) (evs0 ++ tail)).
Proof.
  intros Hq Ht. rewrite weight_app, (quiet_weight Hq).
  destruct Ht as [-> | [str ->]].
  - rewrite app_nil_r. split; [rewrite weight_nil; lia|]. split.
    + intros p text Hin. destruct (quiet_no_write _ _ Hq Hin).
    + intros p Hin. destruct (quiet_no_done _ Hq Hin).
  - split; [cbn; lia|]. split.
    + intros p text Hin. apply in_app_or in Hin as [Hin|Hin];
        [destruct (quiet_no_write _ _ Hq Hin)|].
      destruct Hin as [[= <- <-]|[Hin|[]]]; [|discriminate].
      split; [reflexivity|]. split; [apply cleanCode_has_no_fence|].
      split; [apply trim_leading|]. split; [apply trim_trailing|].
      apply in_or_app. right. right. left. reflexivity.
    + intros p Hin. apply in_app_or in Hin as [Hin|Hin];
        [destruct (quiet_no_done _ Hq Hin)|].
      destruct Hin as [Hin|[[= <-]|[]]]; [discriminate|].
      exists (cleanCode str). apply in_or_app. right. left. reflexivity.
Qed.

(** X14: a run writes at most one file.  What it writes goes to the output
    path ([--out], or [output.ts]), holds no three backticks in a row and no
    white space at either end, and is followed by the closing line of the
    log; and the closing line is logged only after the file was written. *)
Theorem main_writes_once_clean (a : args) (w : world) :
  exists evs,
    events (fst (main a w)) = events w ++ evs
    /\ weight write_count evs <= 1
    /\ (forall p text, In (EvWrite p text) evs ->
          p = outPath a /\ has_fence text = false
          /\ leading_space text = false /\ trailing_space text = false
          /\ In (EvLog (PipelineDone p)) evs)
    /\ (forall p, In (EvLog (PipelineDone p)) evs ->
          exists text, In (EvWrite p text) evs).
Proof.
  unfold main.
  set (w1 := if present (api_key w) then w else _).
  assert (events w1 = events w) as Hw1
    by (unfold w1; destruct (present (api_key w)); reflexivity).
  destruct (negb (present (api_key w1))).
  { exists []. cbn [fst]. rewrite Hw1, app_nil_r. split; [reflexivity|].
    apply (@shaped_log a [] []); [constructor|left; reflexivity]. }
  assert (forall X : world * termination,
            events (fst X) = events w ++ [EvLog Banner; EvLog Usage] ->
            exists evs, events (fst X) = events w ++ evs
              /\ weight write_count evs <= 1
              /\ (forall p text, In (EvWrite p text) evs ->
                    p = outPath a /\ has_fence text = false
                    /\ leading_space text = false /\ trailing_space text = false
                    /\ In (EvLog (PipelineDone p)) evs)
              /\ (forall p, In (EvLog (PipelineDone p)) evs ->
                    exists text, In (EvWrite p text) evs)) as Husage.
  { intros X HX. exists [EvLog Banner; EvLog Usage]. split; [exact HX|].
    rewrite <- (app_nil_r [EvLog Banner; EvLog Usage]).
    apply shaped_log; [repeat constructor|left; reflexivity]. }
  assert (events (emit (EvLog Usage) (emit (EvLog Banner) w1))
          = events w ++ [EvLog Banner; EvLog Usage]) as Hu
    by (cbn [emit events]; rewrite Hw1, <- app_assoc; reflexivity).
  destruct (userPrompt a) as [|c0 p]; [apply Husage, Hu|].
  destruct (specPath a) as [[|c1 sp]|]; try (apply Husage, Hu).
  destruct (try_block a (c1 :: sp) w1) as [w2 [u|e]] eqn:Et;
    destruct (@try_block_log _ _ _ _ _ Et) as (evs0 & tail & Hev & Hq & Ht).
  - exists (evs0 ++ tail). cbn [fst]. rewrite Hev, Hw1. split; [reflexivity|].
    apply shaped_log; [exact Hq|].
    destruct Ht as [[-> _]|[str [-> _]]]; [left; reflexivity|right; eauto].
  - destruct Ht as [[-> _]|[str [_ Hr]]]; [|discriminate].
    exists ((evs0 ++ [EvConsoleError e]) ++ []). cbn [fst emit events].
    split; [rewrite Hev, Hw1, !app_nil_r, <- app_assoc; reflexivity|].
    apply shaped_log; [|left; reflexivity].
    apply Forall_app. split; [exact Hq|repeat constructor].
Qed.

(** ** How many requests a run sends *)

Lemma within_of_emits {A : Type} (f : event -> nat) (m : M A) :
  emits_only (fun e => f e = 0) m -> emits_within f 0 m.
Proof.
  intros H w w' r E. destruct (H _ _ _ E) as (evs & Hev & Hall).
  exists evs. split; [exact Hev|]. clear Hev.
  induction Hall as [|e evs He _ IH]; [rewrite weight_nil; lia|].
  rewrite weight_cons, He. exact IH.
Qed.

Lemma within_bind_ret {A B : Type} (f : event -> nat) (n : nat) (a : A)
  (k : A -> M B) :
  emits_within f n (k a) -> emits_within f n (bind (ret a) k).
Proof. intros H w w' r E. exact (H w w' r E). Qed.

Lemma within_queryOpenRouter (messages : list message) (temperature : decimal)
  (retries : nat) :
  emits_within request_count retries (queryOpenRouter messages temperature retries).
Proof.
  intros w w' r. unfold queryOpenRouter.
  destruct (api_key w) as [[|c key]|];
    try (intros [= <- <-]; exists []; rewrite app_nil_r, weight_nil; split;
         [reflexivity|lia]).
  apply attempts_requests.
Qed.

Lemma within_agent (n : notice) (messages : list message) (temperature : decimal) :
  emits_within request_count 5
    (bind (log n) (fun _ => queryOpenRouter messages temperature default_retries)).
Proof.
  change 5 with (0 + 5). apply within_bind.
  - apply within_of_emits, emits_log. reflexivity.
  - intros _. apply within_queryOpenRouter.
Qed.

Lemma within_stage (n : nat) (agent : M value) :
  emits_within request_count n agent -> emits_within request_count n (stage agent).
Proof.
  intros H. replace n with (n + 0) by lia. apply within_bind; [exact H|].
  intros v. apply within_of_emits, emits_callCleanCode.
Qed.

Lemma within_stages (prompt spec review : jsstring) :
  emits_within request_count (match review with [] => 10 | _ => 15 end)
               (stages prompt spec review).
Proof.
  unfold stages.
  replace (match review with [] => 10 | _ => 15 end)
    with (5 + (5 + match review with [] => 0 | _ => 5 end))
    by (destruct review; reflexivity).
  apply within_bind; [apply within_stage, within_agent|]. intros x.
  apply within_bind; [apply within_stage, within_agent|]. intros y.
  destruct review; [apply within_ret|apply within_stage, within_agent].
Qed.

Lemma within_write_tail (a : args) (spec review : jsstring) :
  emits_within request_count (match review with [] => 10 | _ => 15 end)
    (code <- stages (userPrompt a) spec review ;;
     writeTextFile (outPath a) code ;;;
     log (PipelineDone (outPath a)))%js.
Proof.
  replace (match review with [] => 10 | _ => 15 end)
    with (match review with [] => 10 | _ => 15 end + (0 + 0)) by lia.
  apply within_bind; [apply within_stages|].
  intros code. apply within_bind.
  - apply within_of_emits, emits_writeTextFile. reflexivity.
  - intros _. apply within_of_emits, emits_log. reflexivity.
Qed.

Lemma within_try_block (a : args) (sp : jsstring) :
  emits_within request_count
    (if present (reviewPath a) then 15 else 10) (try_block a sp).
Proof.
  unfold try_block.
  set (n := if present (reviewPath a) then 15 else 10).
  replace n with (0 + (0 + n)) by lia.
  apply within_bind; [apply within_of_emits, emits_readTextFile|]. intros spec.
  apply within_bind; [apply within_of_emits, emits_log; reflexivity|]. intros _.
  unfold n. destruct (reviewPath a) as [[|c rp]|]; cbn [present].
  - apply within_bind_ret. apply (within_write_tail a spec []).
  - change 15 with (0 + 15). apply within_bind.
    + apply within_of_emits, emits_loadReview. reflexivity.
    + intros review.
      apply (within_weaken (n := match review with [] => 10 | _ => 15 end));
        [destruct review; lia|apply within_write_tail].
  - apply within_bind_ret. apply (within_write_tail a spec []).
Qed.

(** X15: a run sends at most fifteen requests to the service, five for each
    agent, and at most ten when no review path is given. *)
Theorem main_request_bound (a : args) (w : world) :
  exists evs,
    events (fst (main a w)) = events w ++ evs
    /\ weight request_count evs <= 15
    /\ (present (reviewPath a) = false -> weight request_count evs <= 10).
Proof.
  unfold main.
  set (w1 := if present (api_key w) then w else _).
  assert (events w1 = events w) as Hw1
    by (unfold w1; destruct (present (api_key w)); reflexivity).
  destruct (negb (present (api_key w1))).
  { exists []. cbn [fst]. rewrite Hw1, app_nil_r, weight_nil.
    repeat split; lia. }
  assert (events (emit (EvLog Usage) (emit (EvLog Banner) w1))
          = events w ++ [EvLog Banner; EvLog Usage]) as Hu
    by (cbn [emit events]; rewrite Hw1, <- app_assoc; reflexivity).
  destruct (userPrompt a) as [|c0 p];
    [exists [EvLog Banner; EvLog Usage]; split; [exact Hu|cbn; lia]|].
  destruct (specPath a) as [[|c1 sp]|];
    try (exists [EvLog Banner; EvLog Usage]; split; [exact Hu|cbn; lia]).
  destruct (try_block a (c1 :: sp) w1) as [w2 [u|e]] eqn:Et;
    destruct (@within_try_block a (c1 :: sp) _ _ _ Et) as (evs & Hev & Hb).
  - exists evs. cbn [fst]. rewrite Hev, Hw1. split; [reflexivity|].
    destruct (present (reviewPath a)); split; try lia; discriminate.
  - exists (evs ++ [EvConsoleError e]). cbn [fst emit events].
    rewrite Hev, Hw1, <- app_assoc. split; [reflexivity|].
    rewrite weight_app, weight_cons, weight_nil. cbn [request_count].
    destruct (present (reviewPath a)); split; try lia; discriminate.
Qed.

(** ** What a run sends *)

Lemma advance_compose (e1 e2 : list event) (n1 n2 : nat) (w : world) :
  advance e2 n2 (advance e1 n1 w) = advance (e1 ++ e2) (n2 + n1) w.
Proof.
  unfold advance. cbn. rewrite app_assoc, Nat.add_assoc. reflexivity.
Qed.

(** The world after one attempt. *)
Lemma attempt_body_world (req : request) (retries attempt : nat)
  (w w' : world) (r : result (option value)) :
  attempt_body req retries attempt w = (w', r) ->
  exists ms, w' = advance [EvFetch req] 1 w
             \/ w' = advance [EvFetch req; EvSleep ms] 1 w.
Proof.
  destruct (rate_limited (server w (fetches w) req)) eqn:Erl.
  - destruct (rate_limited_429 _ Erl) as [body Hb].
    rewrite (attempt_rate_limited _ _ _ _ Hb). intros [= <- <-]. eauto.
  - destruct (failure (server w (fetches w) req)) as [e|] eqn:E.
    + rewrite (attempt_throws _ _ _ _ E).
      destruct (Nat.eqb attempt retries); intros [= <- <-]; [exists 0%Z|]; eauto.
    + destruct (server w (fetches w) req) as [|status body] eqn:Es;
        [discriminate|].
      cbn in Erl. cbn in E. rewrite Erl in E.
      destruct (ok status) eqn:Eok; [|discriminate]. cbn in E.
      destruct body as [data|]; [|discriminate].
      destruct (first_choice_content data) as [v|e] eqn:Ev; [|discriminate].
      rewrite (@attempt_success req retries attempt w status data v Es Eok Ev).
      intros [= <- <-]. exists 0%Z. eauto.
Qed.

Lemma attempts_world (req : request) (retries : nat) :
  forall remaining attempt w w' r,
    attempts req retries remaining attempt w = (w', r) ->
    exists evs n,
      w' = advance evs n w
      /\ Forall (fun e => e = EvFetch req \/ exists ms, e = EvSleep ms) evs.
Proof.
  induction remaining as [|k IH]; intros attempt w w' r.
  - intros [= <- <-]. exists [], 0. rewrite advance_nil. auto.
  - rewrite attempts_S.
    destruct (attempt_body req retries attempt w) as [w1 r1] eqn:Ea.
    destruct (attempt_body_world _ _ _ _ Ea) as [ms Hw1].
    assert (exists ev1, w1 = advance ev1 1 w
              /\ Forall (fun e => e = EvFetch req \/ exists ms, e = EvSleep ms) ev1)
      as (ev1 & -> & F1).
    { destruct Hw1 as [-> | ->]; eexists; (split; [reflexivity|]);
        repeat (apply Forall_cons || apply Forall_nil);
        first [left; reflexivity | right; eexists; reflexivity]. }
    destruct r1 as [[v|]|e].
    + intros [= <- <-]. eauto.
    + intros E. destruct (IH _ _ _ _ E) as (ev2 & n & -> & F2).
      exists (ev1 ++ ev2), (n + 1). rewrite advance_compose.
      split; [reflexivity|]. apply Forall_app. auto.
    + intros [= <- <-]. eauto.
Qed.

Lemma steady_unchanged {A : Type} (key : option jsstring) (mdl : jsstring)
  (P : event -> Prop) (m : M A) :
  (forall w, fst (m w) = w) -> steady key mdl P m.
Proof.
  intros H w w' r Hk Hm E. specialize (H w). rewrite E in H. cbn in H. subst w'.
  repeat split; auto. exists []. rewrite app_nil_r. auto.
Qed.

Lemma steady_emit {A : Type} (key : option jsstring) (mdl : jsstring)
  (P : event -> Prop) (e : event) (m : M A) :
  P e -> (forall w, fst (m w) = emit e w \/ fst (m w) = w) -> steady key mdl P m.
Proof.
  intros He H w w' r Hk Hm E. specialize (H w). rewrite E in H. cbn in H.
  destruct H as [-> | ->]; repeat split; auto.
  - exists [e]. split; [reflexivity|]. constructor; auto.
  - exists []. rewrite app_nil_r. auto.
Qed.

Lemma steady_bind {A B : Type} (key : option jsstring) (mdl : jsstring)
  (P : event -> Prop) (m : M A) (k : A -> M B) :
  steady key mdl P m -> (forall a, steady key mdl P (k a)) ->
  steady key mdl P (bind m k).
Proof.
  intros Hm Hk w w' r Hkey Hmdl E. unfold bind in E.
  destruct (m w) as [w1 [a|e]] eqn:E1.
  - destruct (Hm _ _ _ Hkey Hmdl E1) as (K1 & M1 & ev1 & H1 & F1).
    destruct (Hk a _ _ _ K1 M1 E) as (K2 & M2 & ev2 & H2 & F2).
    repeat split; auto. exists (ev1 ++ ev2). rewrite H2, H1, app_assoc.
    split; [reflexivity|]. apply Forall_app. auto.
  - injection E as <- <-. exact (Hm _ _ _ Hkey Hmdl E1).
Qed.

Lemma steady_log (key : option jsstring) (mdl : jsstring) (P : event -> Prop)
  (n : notice) : P (EvLog n) -> steady key mdl P (log n).
Proof.
  intros H. apply (@steady_emit _ key mdl P (EvLog n) _ H).
  intros w. left. reflexivity.
Qed.

Lemma steady_queryOpenRouter (key mdl : jsstring) (text : jsstring)
  (temperature : decimal) (retries : nat) :
  temperature = creative \/ temperature = strict ->
  steady (Some key) mdl (well_formed key mdl)
         (queryOpenRouter (user_message text) temperature retries).
Proof.
  intros Ht w w' r Hk Hm. unfold queryOpenRouter. rewrite Hk.
  destruct key as [|c key].
  - intros [= <- <-]. repeat split; auto. exists []. rewrite app_nil_r. auto.
  - intros E. destruct (attempts_world _ _ _ _ _ E) as (evs & n & -> & F).
    repeat split; auto. exists evs. split; [reflexivity|].
    eapply Forall_impl; [|exact F]. intros e [-> | [ms ->]]; [|exact I].
    cbn. repeat split; eauto. discriminate.
Qed.

Lemma steady_agent (key mdl : jsstring) (n : notice) (text : jsstring)
  (temperature : decimal) :
  temperature = creative \/ temperature = strict ->
  steady (Some key) mdl (well_formed key mdl)
    (bind (log n)
       (fun _ => queryOpenRouter (user_message text) temperature default_retries)).
Proof.
  intros Ht. apply steady_bind; [apply steady_log; exact I|].
  intros _. apply steady_queryOpenRouter, Ht.
Qed.

Lemma steady_stage (key mdl : jsstring) (agent : M value) :
  steady (Some key) mdl (well_formed key mdl) agent ->
  steady (Some key) mdl (well_formed key mdl) (stage agent).
Proof.
  intros H. apply steady_bind; [exact H|]. intros v.
  apply steady_unchanged. intros w. destruct v as [|[| | | | |]]; reflexivity.
Qed.

Lemma steady_try_block (key mdl : jsstring) (a : args) (sp : jsstring) :
  steady (Some key) mdl (well_formed key mdl) (try_block a sp).
Proof.
  unfold try_block.
  apply steady_bind.
  { apply steady_unchanged. intros w. unfold readTextFile.
    destruct (files w sp); reflexivity. }
  intros spec. apply steady_bind; [apply steady_log; exact I|]. intros _.
  apply steady_bind.
  { destruct (reviewPath a) as [[|c rp]|]; cbn [loadReview];
      try (apply steady_unchanged; reflexivity).
    apply steady_bind.
    - apply steady_unchanged. intros w. unfold readTextFile.
      destruct (files w (c :: rp)); reflexivity.
    - intros t. apply steady_bind; [apply steady_log; exact I|].
      intros _. apply steady_unchanged. reflexivity. }
  intros review. apply steady_bind.
  { unfold stages.
    apply steady_bind; [apply steady_stage, steady_agent; auto|]. intros x.
    apply steady_bind; [apply steady_stage, steady_agent; auto|]. intros y.
    destruct review; [apply steady_unchanged; reflexivity|].
    apply steady_stage, steady_agent. auto. }
  intros code. apply steady_bind.
  - apply (@steady_emit _ (Some key) mdl _ (EvWrite (outPath a) code) _ I).
    intros w. unfold writeTextFile.
    destruct (writable w (outPath a)); [left|right]; reflexivity.
  - intros _. apply steady_log. exact I.
Qed.

(** X16: every request of a run is built the same way: it carries the
    credential the run ends with (from the environment, or typed at the
    prompt), which is not empty, names the configured model, holds a single
    message of role [user], and asks for temperature 0.7 or 0.2. *)
Theorem requests_well_formed (a : args) (w : world) (key : jsstring) :
  api_key (fst (main a w)) = Some key ->
  exists evs,
    events (fst (main a w)) = events w ++ evs
    /\ forall r, In (EvFetch r) evs ->
         bearer r = key /\ key <> [] /\ req_model r = model w
         /\ (exists text, req_messages r = user_message text)
         /\ (req_temperature r = creative \/ req_temperature r = strict).
Proof.
  unfold main.
  set (w1 := if present (api_key w) then w else _).
  assert (events w1 = events w /\ model w1 = model w) as [Hw1 Hm1]
    by (unfold w1; destruct (present (api_key w)); split; reflexivity).
  assert (forall X : world * termination,
            (exists evs, events (fst X) = events w ++ evs
                         /\ forall r, ~ In (EvFetch r) evs) ->
            exists evs, events (fst X) = events w ++ evs
              /\ forall r, In (EvFetch r) evs ->
                   bearer r = key /\ key <> [] /\ req_model r = model w
                   /\ (exists text, req_messages r = user_message text)
                   /\ (req_temperature r = creative \/ req_temperature r = strict))
    as Hnone.
  { intros X (evs & Hev & Hno). exists evs. split; [exact Hev|].
    intros r Hin. destruct (Hno r Hin). }
  destruct (negb (present (api_key w1))).
  { intros _. apply Hnone. exists []. cbn [fst]. rewrite Hw1, app_nil_r.
    split; [reflexivity|]. intros r []. }
  assert (exists evs, events (emit (EvLog Usage) (emit (EvLog Banner) w1))
                      = events w ++ evs /\ forall r, ~ In (EvFetch r) evs) as Hu.
  { exists [EvLog Banner; EvLog Usage]. cbn [emit events].
    rewrite Hw1, <- app_assoc. split; [reflexivity|].
    intros r [H|[H|[]]]; discriminate. }
  destruct (userPrompt a) as [|c0 p]; [intros _; apply Hnone, Hu|].
  destruct (specPath a) as [[|c1 sp]|]; try (intros _; apply Hnone, Hu).
  destruct (try_block a (c1 :: sp) w1) as [w2 [u|e]] eqn:Et; cbn [fst].
  - intros Hk.
    destruct (api_key w1) as [k1|] eqn:Ek1.
    + destruct (@steady_try_block k1 (model w) a (c1 :: sp) _ _ _ Ek1 Hm1 Et)
        as (K & _ & evs & Hev & F).
      assert (k1 = key) as -> by congruence.
      exists evs. rewrite Hev, Hw1. split; [reflexivity|].
      intros r Hin. rewrite Forall_forall in F. exact (F _ Hin).
    + exfalso. clear Hk.
      unfold w1 in Ek1. destruct (present (api_key w)) eqn:Ep; [|discriminate].
      rewrite Ek1 in Ep. discriminate.
  - cbn [emit api_key]. intros Hk.
    destruct (api_key w1) as [k1|] eqn:Ek1.
    + destruct (@steady_try_block k1 (model w) a (c1 :: sp) _ _ _ Ek1 Hm1 Et)
        as (K & _ & evs & Hev & F).
      assert (k1 = key) as -> by congruence.
      exists (evs ++ [EvConsoleError e]). cbn [emit events].
      rewrite Hev, Hw1, <- app_assoc. split; [reflexivity|].
      intros r Hin. apply in_app_or in Hin as [Hin|[Hin|[]]]; [|discriminate].
      rewrite Forall_forall in F. exact (F _ Hin).
    + exfalso. clear Hk.
      unfold w1 in Ek1. destruct (present (api_key w)) eqn:Ep; [|discriminate].
      rewrite Ek1 in Ep. discriminate.
Qed.

Lemma requests_well_formed_witness :
  let w := scripted fenced project in
  exists evs,
    events (fst (main greet_reviewed w)) = events w ++ evs
    /\ forall r, In (EvFetch r) evs ->
         bearer r = lit "sk-test" /\ lit "sk-test" <> [] /\ req_model r = model w
         /\ (exists text, req_messages r = user_message text)
         /\ (req_temperature r = creative \/ req_temperature r = strict).
Proof.
  intros w. apply (@requests_well_formed greet_reviewed w (lit "sk-test")).
  vm_compute. reflexivity.
Defined.

(** ** Runs without a credential, runs without trouble *)

(** X17: without a credential nothing is asked of the service: the stages
    end in the Architect, which logs its line and throws the configuration
    error; no request is sent and no other agent starts. *)
Theorem no_credential_no_request (prompt spec review : jsstring) (w : world) :
  present (api_key w) = false ->
  stages prompt spec review w
  = (emit (EvLog ArchitectStarts) w, Throw ConfigError).
Proof.
  intros Hk. rewrite stages_unfold, stage_result.
  unfold architectAgent, bind, log, queryOpenRouter. cbn [api_key emit].
  destruct (api_key w) as [[|c key]|]; try discriminate; reflexivity.
Qed.

Lemma no_credential_no_request_witness :
  let w := set_api_key None (scripted fenced no_files) in
  stages (lit "write greet") (lit "must be named greet") [] w
  = (emit (EvLog ArchitectStarts) w, Throw ConfigError).
Proof.
  intros w. apply no_credential_no_request. reflexivity.
Defined.

Lemma emit_as_advance (e : event) (w : world) : emit e w = advance [e] 0 w.
Proof. reflexivity. Qed.

(** An agent whose first request is answered with a success. *)
Lemma agent_first_try (n : notice) (key text : jsstring) (temperature : decimal)
  (w : world) (status : Z) (data : json) (c : jsstring) :
  api_key w = Some key ->
  present (Some key) = true ->
  server w (fetches w) (request_for w key (user_message text) temperature)
    = Response status (Some data) ->
  ok status = true ->
  first_choice_content data = Return (Val (JStr c)) ->
  stage (bind (log n)
           (fun _ => queryOpenRouter (user_message text) temperature default_retries)) w
  = (advance [EvFetch (request_for w key (user_message text) temperature)] 1
             (emit (EvLog n) w),
     Return (cleanCode c)).
Proof.
  intros Hk Hp Hs Hok Hc. rewrite stage_result.
  unfold bind, log, queryOpenRouter. cbn [api_key emit]. rewrite Hk.
  destruct key as [|c0 key]; [discriminate|].
  unfold default_retries.
  change (request_for (emit (EvLog n) w)) with (request_for w).
  rewrite attempts_S.
  rewrite (@attempt_success _ 5 1 (emit (EvLog n) w) status data (Val (JStr c))
             Hs Hok Hc).
  reflexivity.
Qed.

(** X18: a run without trouble and without review rules.  With a
    credential, a prompt, a readable specification, a writable output path,
    and the first two requests answered with a success whose content reads
    as the texts [c1] and [c2] (empty when the content is missing), [main]
    asks the Architect once with prompt and specification, the Auditor once
    with the cleaned [c1], writes the cleaned [c2], logs the closing line
    and ends; the Reviewer is not asked. *)
Theorem clean_run_without_review (a : args) (w : world)
  (key sp spec c1 c2 : jsstring) (s1 s2 : Z) (d1 d2 : json) :
  api_key w = Some key -> present (Some key) = true ->
  present (Some (userPrompt a)) = true ->
  specPath a = Some sp -> present (Some sp) = true ->
  present (reviewPath a) = false ->
  files w sp = Some spec ->
  writable w (outPath a) = true ->
  let req1 := request_for w key
                (user_message (architect_prompt (userPrompt a) spec)) creative in
  let req2 := request_for w key
                (user_message (auditor_prompt (cleanCode c1) spec)) strict in
  server w (fetches w) req1 = Response s1 (Some d1) -> ok s1 = true ->
  first_choice_content d1 = Return (Val (JStr c1)) ->
  server w (S (fetches w)) req2 = Response s2 (Some d2) -> ok s2 = true ->
  first_choice_content d2 = Return (Val (JStr c2)) ->
  main a w
  = (advance [EvLog SpecLoaded; EvLog ArchitectStarts; EvFetch req1;
              EvLog AuditorStarts; EvFetch req2;
              EvWrite (outPath a) (cleanCode c2);
              EvLog (PipelineDone (outPath a))] 2 w,
     Completed).
Proof.
  intros Hk Hp Hprompt Hsp Hpsp Hrev Hf Hw req1 req2 H1 Hok1 Hc1 H2 Hok2 Hc2.
  assert (present (api_key w) = true) as Hkp by (rewrite Hk; exact Hp).
  unfold main. rewrite Hkp, Hkp, Hsp. cbn [negb].
  destruct (userPrompt a) as [|c0 p] eqn:Eprompt; [discriminate|].
  destruct sp as [|c3 sp]; [discriminate|].
  unfold try_block, bind at 1, readTextFile. rewrite Hf.
  unfold bind at 1. cbn [log].
  assert (loadReview (reviewPath a) = ret []) as ->
    by (destruct (reviewPath a) as [[|? ?]|]; try discriminate; reflexivity).
  unfold bind at 1. cbn [ret].
  unfold bind at 1. rewrite stages_unfold, Eprompt.
  set (W1 := advance [EvFetch req1] 1
               (emit (EvLog ArchitectStarts) (emit (EvLog SpecLoaded) w))).
  set (W2 := advance [EvFetch req2] 1 (emit (EvLog AuditorStarts) W1)).
  assert (stage (architectAgent (c0 :: p) spec) (emit (EvLog SpecLoaded) w)
          = (W1, Return (cleanCode c1))) as E1
    by exact (@agent_first_try ArchitectStarts key _ creative
                (emit (EvLog SpecLoaded) w) s1 d1 c1 Hk Hp H1 Hok1 Hc1).
  assert (stage (auditorAgent (cleanCode c1) spec) W1
          = (W2, Return (cleanCode c2))) as E2
    by exact (@agent_first_try AuditorStarts key _ strict W1 s2 d2 c2
                Hk Hp H2 Hok2 Hc2).
  rewrite E1, E2.
  unfold bind, writeTextFile.
  change (writable W2 (outPath a)) with (writable w (outPath a)). rewrite Hw.
  cbn [log]. f_equal. unfold W2, W1.
  rewrite !emit_as_advance, !advance_compose. reflexivity.
Qed.

Lemma clean_run_without_review_witness :
  let w := scripted fenced project in
  let spec := lit "must be named greet" in
  let req1 := request_for w (lit "sk-test")
                (user_message (architect_prompt (userPrompt greet) spec)) creative in
  let req2 := request_for w (lit "sk-test")
                (user_message (auditor_prompt (lit "v0") spec)) strict in
  main greet w
  = (advance [EvLog SpecLoaded; EvLog ArchitectStarts; EvFetch req1;
              EvLog AuditorStarts; EvFetch req2;
              EvWrite (lit "output.ts") (lit "v1");
              EvLog (PipelineDone (lit "output.ts"))] 2 w,
     Completed).
Proof.
  intros w spec req1 req2.
  refine (@clean_run_without_review greet w (lit "sk-test") (lit "spec.md") spec
            (lit "```ts" ++ [newline] ++ lit "v0" ++ [newline] ++ lit "```")
            (lit "```ts" ++ [newline] ++ lit "v1" ++ [newline] ++ lit "```")
            200%Z 200%Z _ _
            eq_refl eq_refl eq_refl eq_refl eq_refl eq_refl eq_refl eq_refl
            eq_refl eq_refl eq_refl eq_refl eq_refl eq_refl).
Defined.

(** X19: a run without trouble with review rules.  As X18, with a review
    path whose file is readable and not empty and a third request answered
    with the text [c3]: after the Auditor, [main] asks the Reviewer once
    with the cleaned [c2] and the rules, and writes the cleaned [c3]. *)
Theorem clean_run_with_review (a : args) (w : world)
  (key sp spec rp rules c1 c2 c3 : jsstring) (s1 s2 s3 : Z) (d1 d2 d3 : json) :
  api_key w = Some key -> present (Some key) = true ->
  present (Some (userPrompt a)) = true ->
  specPath a = Some sp -> present (Some sp) = true ->
  reviewPath a = Some rp -> present (Some rp) = true ->
  files w sp = Some spec ->
  files w rp = Some rules -> present (Some rules) = true ->
  writable w (outPath a) = true ->
  let req1 := request_for w key
                (user_message (architect_prompt (userPrompt a) spec)) creative in
  let req2 := request_for w key
                (user_message (auditor_prompt (cleanCode c1) spec)) strict in
  let req3 := request_for w key
                (user_message (reviewer_prompt (cleanCode c2) rules)) strict in
  server w (fetches w) req1 = Response s1 (Some d1) -> ok s1 = true ->
  first_choice_content d1 = Return (Val (JStr c1)) ->
  server w (S (fetches w)) req2 = Response s2 (Some d2) -> ok s2 = true ->
  first_choice_content d2 = Return (Val (JStr c2)) ->
  server w (S (S (fetches w))) req3 = Response s3 (Some d3) -> ok s3 = true ->
  first_choice_content d3 = Return (Val (JStr c3)) ->
  main a w
  = (advance [EvLog SpecLoaded; EvLog ReviewLoaded;
              EvLog ArchitectStarts; EvFetch req1;
              EvLog AuditorStarts; EvFetch req2;
              EvLog ReviewerStarts; EvFetch req3;
              EvWrite (outPath a) (cleanCode c3);
              EvLog (PipelineDone (outPath a))] 3 w,
     Completed).
Proof.
  intros Hk Hp Hprompt Hsp Hpsp Hrp Hprp Hf Hfr Hrules Hw req1 req2 req3
         H1 Hok1 Hc1 H2 Hok2 Hc2 H3 Hok3 Hc3.
  assert (present (api_key w) = true) as Hkp by (rewrite Hk; exact Hp).
  unfold main. rewrite Hkp, Hkp, Hsp. cbn [negb].
  destruct (userPrompt a) as [|c0 p] eqn:Eprompt; [discriminate|].
  destruct sp as [|c4 sp]; [discriminate|].
  destruct rp as [|c5 rp]; [discriminate|].
  destruct rules as [|c6 rules]; [discriminate|].
  unfold try_block, bind at 1, readTextFile. rewrite Hf.
  unfold bind at 1. cbn [log]. rewrite Hrp.
  unfold bind at 1. cbn [loadReview]. unfold bind at 1, readTextFile.
  cbn [files emit]. rewrite Hfr. unfold bind at 1. cbn [log ret].
  set (W0 := emit (EvLog ReviewLoaded) _).
  unfold bind at 1. rewrite stages_unfold, Eprompt.
  set (W1 := advance [EvFetch req1] 1 (emit (EvLog ArchitectStarts) W0)).
  set (W2 := advance [EvFetch req2] 1 (emit (EvLog AuditorStarts) W1)).
  set (W3 := advance [EvFetch req3] 1 (emit (EvLog ReviewerStarts) W2)).
  assert (stage (architectAgent (c0 :: p) spec) W0 = (W1, Return (cleanCode c1))) as E1
    by exact (@agent_first_try ArchitectStarts key _ creative W0 s1 d1 c1
                Hk Hp H1 Hok1 Hc1).
  assert (stage (auditorAgent (cleanCode c1) spec) W1
          = (W2, Return (cleanCode c2))) as E2
    by exact (@agent_first_try AuditorStarts key _ strict W1 s2 d2 c2
                Hk Hp H2 Hok2 Hc2).
  assert (stage (reviewerAgent (cleanCode c2) (c6 :: rules)) W2
          = (W3, Return (cleanCode c3))) as E3
    by exact (@agent_first_try ReviewerStarts key _ strict W2 s3 d3 c3
                Hk Hp H3 Hok3 Hc3).
  rewrite E1, E2, E3.
  unfold bind, writeTextFile.
  change (writable W3 (outPath a)) with (writable w (outPath a)). rewrite Hw.
  cbn [log]. f_equal. unfold W3, W2, W1, W0.
  rewrite !emit_as_advance, !advance_compose. reflexivity.
Qed.

Lemma clean_run_with_review_witness :
  let w := scripted fenced project in
  let spec := lit "must be named greet" in
  let rules := lit "use arrow functions" in
  let req1 := request_for w (lit "sk-test")
                (user_message (architect_prompt (userPrompt greet_reviewed) spec))
                creative in
  let req2 := request_for w (lit "sk-test")
                (user_message (auditor_prompt (lit "v0") spec)) strict in
  let req3 := request_for w (lit "sk-test")
                (user_message (reviewer_prompt (lit "v1") rules)) strict in
  main greet_reviewed w
  = (advance [EvLog SpecLoaded; EvLog ReviewLoaded;
              EvLog ArchitectStarts; EvFetch req1;
              EvLog AuditorStarts; EvFetch req2;
              EvLog ReviewerStarts; EvFetch req3;
              EvWrite (lit "greet.ts") (lit "v2");
              EvLog (PipelineDone (lit "greet.ts"))] 3 w,
     Completed).
Proof.
  intros w spec rules req1 req2 req3.
  refine (@clean_run_with_review greet_reviewed w (lit "sk-test") (lit "spec.md")
            spec (lit "rules.md") rules
            (lit "```ts" ++ [newline] ++ lit "v0" ++ [newline] ++ lit "```")
            (lit "```ts" ++ [newline] ++ lit "v1" ++ [newline] ++ lit "```")
            (lit "```ts" ++ [newline] ++ lit "v2" ++ [newline] ++ lit "```")
            200%Z 200%Z 200%Z _ _ _
            eq_refl eq_refl eq_refl eq_refl eq_refl eq_refl eq_refl eq_refl
            eq_refl eq_refl eq_refl
            eq_refl eq_refl eq_refl eq_refl eq_refl eq_refl
            eq_refl eq_refl eq_refl).
Defined.

End PipelineMore.
